(** * MoodTunes: the feature-to-mood pipeline of [app.py], the database
      set-up of [backend/utils/setup_database.py] and the table printer of
      [backend/utils/view_database.py]

    The development embeds the Python functions as Rocq functions:
    - Python floats are IEEE 754 binary64 numbers, taken from the
      Standard Library's executable specification [SpecFloat];
    - a feature dictionary is a finite map from key strings to Python
      values;
    - [try ... except Exception] is an error monad whose failures are
      caught where the source catches them;
    - the metadata table is the list of its lines, and [tracks.loc]
      returns an entry or, for a repeated label, a [Series];
    - the SQLite store is a pair of tables with a committed and a
      working copy, 64-bit INTEGER keys and the parameter binding of
      [sqlite3]. *)

From Stdlib Require Import ZArith String Ascii List Bool Lia.
From Stdlib Require Import Floats.SpecFloat.
From stdpp Require Import gmap strings pretty.

Local Open Scope string_scope.
Local Open Scope Z_scope.
Local Open Scope list_scope.

(* ===================================================================== *)
(** * Part I: definitions                                                 *)
(* ===================================================================== *)

(** ** Python floats: IEEE 754 binary64 *)

Module Float64.

Definition prec : Z := 53.
Definition emax : Z := 1024.

Definition add : spec_float → spec_float → spec_float := SFadd prec emax.
Definition sub : spec_float → spec_float → spec_float := SFsub prec emax.
Definition mul : spec_float → spec_float → spec_float := SFmul prec emax.
Definition div : spec_float → spec_float → spec_float := SFdiv prec emax.
Definition ltb : spec_float → spec_float → bool := SFltb.
Definition leb : spec_float → spec_float → bool := SFleb.
Definition eqb : spec_float → spec_float → bool := SFeqb.

(** [float(z)] for an integer literal of the source (all of them are
    small, so the conversion is exact). *)
Definition of_Z (z : Z) : spec_float := binary_normalize prec emax z 0 false.

(** The float literal [m]e-[k], e.g. [decimal 5 2] for [0.05]: the
    binary64 number nearest to [m / 10^k], which the correctly rounded
    division yields since [m] and [10^k] are both exact. *)
Definition decimal (m : Z) (k : Z) : spec_float :=
  div (of_Z m) (of_Z (10 ^ k)).

Definition is_nan (x : spec_float) : bool :=
  match x with S754_nan => true | _ => false end.

(** Python's two-argument built-in [min(a, b)]: the first argument is
    kept unless the second compares strictly below it. *)
Definition py_min (a b : spec_float) : spec_float :=
  if ltb b a then b else a.

End Float64.

Abbreviation float := spec_float.

(** ** Python values and exceptions *)

(** The values of a feature dictionary, as far as this development
    goes: a Python float, which is what the data model gives every
    feature, or a value that is not a number, a [str] or [None]. Python
    ints and NumPy scalars and arrays are not covered; what is proved
    about feature vectors is proved for dictionaries of these values. *)
Inductive pyval : Type :=
  | PyFloat (x : float)
  | PyStr (s : string)
  | PyNone.

(** The exceptions the modelled lines raise. [ProgrammingError] is the
    [sqlite3] error for a parameter of an unsupported type (it is
    [sqlite3.InterfaceError] before Python 3.11); [OperationalError] is the
    one for a missing table, a file that cannot be opened and a full
    database. *)
Inductive exn : Type :=
  | KeyError (key : string)
  | TypeError
  | ValueError
  | OverflowError
  | OperationalError
  | ProgrammingError
  | UnboundLocalError.

Inductive result (A : Type) : Type :=
  | Ok (a : A)
  | Raise (e : exn).
Arguments Ok {A} a.
Arguments Raise {A} e.

#[global] Instance result_ret : MRet result := λ A a, Ok a.
#[global] Instance result_bind : MBind result := λ A B f m,
  match m with
  | Ok a => f a
  | Raise e => Raise e
  end.

(** [try: return body  except Exception: return None] *)
Definition catch_none {A : Type} (body : result A) : option A :=
  match body with
  | Ok a => Some a
  | Raise _ => None
  end.

(** [d[k]] on a dictionary. *)
Definition getitem {V : Type} (d : gmap string V) (k : string) : result V :=
  match d !! k with
  | Some v => Ok v
  | None => Raise (KeyError k)
  end.

Fixpoint repeat_string (n : nat) (s : string) : string :=
  match n with
  | O => ""
  | S n' => s +:+ repeat_string n' s
  end.

(** [v / c] for a numeric constant [c] of the source, given as the float
    it denotes: defined on floats only. *)
Definition py_truediv (v : pyval) (c : float) : result float :=
  match v with
  | PyFloat x => Ok (Float64.div x c)
  | PyStr _ | PyNone => Raise TypeError
  end.

(** [v * n] for an int literal [n]: float multiplication on a float,
    repetition on a string. *)
Definition py_mul_int (v : pyval) (n : Z) : result pyval :=
  match v with
  | PyFloat x => Ok (PyFloat (Float64.mul x (Float64.of_Z n)))
  | PyStr s => Ok (PyStr (repeat_string (Z.to_nat n) s))
  | PyNone => Raise TypeError
  end.

(** [x + v] and [x * v] with a float on the left. *)
Definition py_add (x : float) (v : pyval) : result float :=
  match v with
  | PyFloat y => Ok (Float64.add x y)
  | PyStr _ | PyNone => Raise TypeError
  end.

Definition py_mul (v w : pyval) : result float :=
  match v, w with
  | PyFloat x, PyFloat y => Ok (Float64.mul x y)
  | _, _ => Raise TypeError
  end.

(** ** The Mood Scorer: [analyze_mood] (app.py, lines 80-109) *)

Abbreviation features := (gmap string pyval).

(** The dictionary [moods] has the same five keys on every path. *)
Record moods : Type := {
  happy_intensity : float;
  sad_intensity : float;
  energetic_intensity : float;
  calm_intensity : float;
  angry_intensity : float
}.

Definition f0 : float := S754_zero false.
Definition f1 : float := Float64.of_Z 1.
Definition f180 : float := Float64.of_Z 180.

(** [tempo_factor = min(features['tempo'] / 180.0, 1.0)] *)
Definition tempo_factor (fs : features) : result float :=
  tempo ← getitem fs "tempo";
  q ← py_truediv tempo f180;
  mret (Float64.py_min q f1).

(** [energy_factor = features['rms_energy'] * 10] *)
Definition energy_factor (fs : features) : result pyval :=
  rms ← getitem fs "rms_energy";
  py_mul_int rms 10.

(** [brightness = features['spectral_centroid'] / 4000] *)
Definition brightness (fs : features) : result float :=
  sc ← getitem fs "spectral_centroid";
  py_truediv sc (Float64.of_Z 4000).

Definition analyze_mood_body (fs : features) : result moods :=
  tf ← tempo_factor fs;
  ef ← energy_factor fs;
  br ← brightness fs;
  s1 ← py_add tf ef;
  let energetic := Float64.py_min f1 (Float64.div s1 (Float64.of_Z 2)) in
  let happy := Float64.py_min f1
                 (Float64.div (Float64.add br tf) (Float64.of_Z 2)) in
  zcr ← getitem fs "zero_crossing_rate";
  p ← py_mul ef zcr;
  let angry := Float64.py_min f1 p in
  let calm := Float64.sub f1 energetic in
  let sad := Float64.sub f1 happy in
  mret {| happy_intensity := happy;
          sad_intensity := sad;
          energetic_intensity := energetic;
          calm_intensity := calm;
          angry_intensity := angry |}.

Definition analyze_mood (fs : features) : option moods :=
  catch_none (analyze_mood_body fs).

(** The feature vector of the worked example:
    tempo 180, rms_energy 0.05, spectral_centroid 2000,
    zero_crossing_rate 0.1. *)
Definition example_features : features :=
  <["tempo" := PyFloat f180]>
  (<["rms_energy" := PyFloat (Float64.decimal 5 2)]>
  (<["spectral_centroid" := PyFloat (Float64.of_Z 2000)]>
  (<["zero_crossing_rate" := PyFloat (Float64.decimal 1 1)]> ∅))).

(** The keys [analyze_mood] reads, in the order it reads them. *)
Definition used_keys : list string :=
  ["tempo"; "rms_energy"; "spectral_centroid"; "zero_crossing_rate"].

(** The keys the data model lists as required in a feature vector. *)
Definition required_keys : list string :=
  ["tempo"; "spectral_centroid"; "spectral_bandwidth"; "rms_energy";
   "zero_crossing_rate"; "chroma_mean";
   "mfcc_0"; "mfcc_1"; "mfcc_2"; "mfcc_3"; "mfcc_4"; "mfcc_5"; "mfcc_6";
   "mfcc_7"; "mfcc_8"; "mfcc_9"; "mfcc_10"; "mfcc_11"; "mfcc_12"].

(** A key is numeric in [fs] when it is present and holds a float. *)
Definition numeric_at (fs : features) (k : string) : bool :=
  match fs !! k with
  | Some (PyFloat _) => true
  | _ => false
  end.

(** The formula of the design, section 4.3, on four float inputs, with
    [clamp01 x = min(1.0, x)]. *)
Definition clamp01 (x : float) : float := Float64.py_min f1 x.

Definition mood_formula (tempo rms_energy spectral_centroid zcr : float) : moods :=
  let tempo_factor := Float64.py_min (Float64.div tempo f180) f1 in
  let energy_factor := Float64.mul rms_energy (Float64.of_Z 10) in
  let brightness := Float64.div spectral_centroid (Float64.of_Z 4000) in
  let energetic :=
    clamp01 (Float64.div (Float64.add tempo_factor energy_factor) (Float64.of_Z 2)) in
  let happy :=
    clamp01 (Float64.div (Float64.add brightness tempo_factor) (Float64.of_Z 2)) in
  let angry := clamp01 (Float64.mul energy_factor zcr) in
  {| happy_intensity := happy;
     sad_intensity := Float64.sub f1 happy;
     energetic_intensity := energetic;
     calm_intensity := Float64.sub f1 energetic;
     angry_intensity := angry |}.

(** A feature vector with a negative tempo: tempo -180, the other three
    inputs 0. *)
Definition negative_tempo_features : features :=
  <["tempo" := PyFloat (Float64.of_Z (-180))]>
  (<["rms_energy" := PyFloat f0]>
  (<["spectral_centroid" := PyFloat f0]>
  (<["zero_crossing_rate" := PyFloat f0]> ∅))).

(** The mood vector of the worked example. *)
Definition example_moods : moods :=
  {| happy_intensity := Float64.decimal 75 2;
     sad_intensity := Float64.decimal 25 2;
     energetic_intensity := Float64.decimal 75 2;
     calm_intensity := Float64.decimal 25 2;
     angry_intensity := Float64.decimal 5 2 |}.

(** ** Paths: [get_audio_path] (app.py, lines 17-20) *)

(** [s.zfill(width)]: nothing is cut from a string that is already wide
    enough; otherwise zeros go to the left, after a leading sign. *)
Definition zfill (width : nat) (s : string) : string :=
  if (width <=? String.length s)%nat then s
  else
    let pad := repeat_string (width - String.length s) "0" in
    match s with
    | String c rest =>
        if (Ascii.eqb c "+" || Ascii.eqb c "-")%bool
        then String c (pad +:+ rest)
        else pad +:+ s
    | EmptyString => pad
    end.

(** [s[:n]] *)
Fixpoint str_take (n : nat) (s : string) : string :=
  match n, s with
  | S n', String c rest => String c (str_take n' rest)
  | _, _ => ""
  end.

Definition starts_with_slash (s : string) : bool :=
  match s with
  | String c _ => Ascii.eqb c "/"
  | EmptyString => false
  end.

Fixpoint ends_with_slash (s : string) : bool :=
  match s with
  | EmptyString => false
  | String c EmptyString => Ascii.eqb c "/"
  | String _ rest => ends_with_slash rest
  end.

(** [os.path.join(a, *p)] of posixpath: one step of its loop over the
    components, and the loop. *)
Definition join_step (path b : string) : string :=
  if starts_with_slash b then b
  else if (String.eqb path "" || ends_with_slash path)%bool then path +:+ b
  else path +:+ "/" +:+ b.

Definition path_join (a : string) (p : list string) : string :=
  fold_left join_step p a.

(** [tid_str = str(track_id).zfill(6)] *)
Definition tid_str (track_id : Z) : string := zfill 6 (pretty track_id).

Definition get_audio_path (track_id : Z) : string :=
  path_join "dataset" ["fma_small"; str_take 3 (tid_str track_id);
                       tid_str track_id +:+ ".mp3"].

(** The path rule in the words of the design: the six decimal digits of
    the id, most significant first; the first three name the directory. *)
Definition digit_of (n : N) : ascii := pretty_N_char (n `mod` 10)%N.

Definition six_digits (n : N) : string :=
  String (digit_of (n `div` 100000)) (String (digit_of (n `div` 10000))
 (String (digit_of (n `div` 1000)) (String (digit_of (n `div` 100))
 (String (digit_of (n `div` 10)) (String (digit_of n) ""))))).

Definition first_three_digits (n : N) : string :=
  String (digit_of (n `div` 100000)) (String (digit_of (n `div` 10000))
 (String (digit_of (n `div` 1000)) "")).

Definition sharded_path (n : N) : string :=
  "dataset/fma_small/" +:+ first_three_digits n +:+ "/" +:+ six_digits n +:+ ".mp3".

(** The [k] low decimal digits of [n], written in front of [acc]. *)
Fixpoint pad_digits (k : nat) (n : N) (acc : string) : string :=
  match k with
  | O => acc
  | S k' => pad_digits k' (n `div` 10)%N (String (digit_of n) acc)
  end.

(** ** The catalog: [load_all_tracks] (app.py, lines 22-44) *)

(** An entry of a text column as [pd.read_csv] gives it: a [str], or
    the float NaN where the field is empty. *)
Inductive entry : Type :=
  | Text (s : string)
  | Missing.

(** One line of the metadata table: the index and the three columns the
    loader reads. *)
Record catalog_row : Type := {
  row_track_id : Z;
  row_title : entry;
  row_artist : entry;
  row_album : entry
}.

(** What [tracks.loc[track_id, column]] evaluates to: the entry of the
    line when the label [track_id] is on one line of the table, a pandas
    [Series] with the entries of all its lines when it is on several. *)
Inductive loc_value : Type :=
  | Scalar (e : entry)
  | Series (entries : list entry).

(** The dictionary the loader builds for a track. *)
Record track : Type := {
  track_id : Z;
  title : loc_value;
  artist : loc_value;
  album : loc_value;
  file_path : string
}.

(** What the run finds outside the program: the metadata file
    ([pd.read_csv] returns its rows in index order or raises), the audio
    files on disk ([os.path.exists]), and the audio library.
    [extract_mood_features] (app.py, lines 46-78) is librosa calls from the
    first line to the last inside [try ... except Exception: return None]:
    it is taken as a function from the path to a feature dictionary or
    [None], the dictionary holding the values of [pyval]. *)
Record environment : Type := {
  read_csv : result (list catalog_row);
  path_exists : string → bool;
  extract_mood_features : string → option features
}.

(** [tracks.loc[track_id, column]]; a label that is on no line is a
    [KeyError]. *)
Definition loc (rows : list catalog_row) (track_id : Z)
    (column : catalog_row → entry) : result loc_value :=
  match filter (λ r, row_track_id r = track_id) rows with
  | [] => Raise (KeyError (pretty track_id))
  | [r] => Ok (Scalar (column r))
  | rs => Ok (Series (column <$> rs))
  end.

(** Lines 28-38: the loop over [tracks.index], which has one label for
    each line, repeated labels included. *)
Fixpoint valid_tracks (env : environment) (rows : list catalog_row)
    (index : list Z) : result (list track) :=
  match index with
  | [] => Ok []
  | track_id :: rest =>
      let file_path := get_audio_path track_id in
      if path_exists env file_path then
        title ← loc rows track_id row_title;
        artist ← loc rows track_id row_artist;
        album ← loc rows track_id row_album;
        tracks ← valid_tracks env rows rest;
        mret ({| track_id := track_id;
                 title := title;
                 artist := artist;
                 album := album;
                 file_path := file_path |} :: tracks)
      else valid_tracks env rows rest
  end.

Definition load_all_tracks (env : environment) : list track :=
  match read_csv env with
  | Ok rows =>
      match valid_tracks env rows (row_track_id <$> rows) with
      | Ok tracks => tracks
      | Raise _ => []
      end
  | Raise _ => []
  end.

(** ** The store (setup_database.py, lines 21-43) *)

(** A TEXT column holds a string or NULL, which is [None] here. *)
Record song_row : Type := {
  song_track_id : Z;
  song_title : option string;
  song_artist : option string;
  song_album : option string;
  song_file_path : string
}.

(** A REAL column keeps a float; a NaN, which SQLite stores as NULL,
    is kept as the NaN. *)
Record mood_row : Type := {
  mood_id : Z;
  mood_track_id : Z;
  mood_happy : float;
  mood_sad : float;
  mood_energetic : float;
  mood_calm : float;
  mood_angry : float
}.

(** A database file: each table is absent until it is created; the rows
    of a table are listed in the order they were written; [mood_seq] is
    the entry of the AUTOINCREMENT key in [sqlite_sequence], the largest
    [id] given out so far. *)
Record database : Type := {
  songs : option (list song_row);
  mood_analysis : option (list mood_row);
  mood_seq : Z
}.

(** What SQLite reads from a new or empty file. *)
Definition empty_database : database :=
  {| songs := None; mood_analysis := None; mood_seq := 0 |}.

(** SQLite's INTEGER is a signed 64-bit number. *)
Definition min_rowid : Z := -9223372036854775808.
Definition max_rowid : Z := 9223372036854775807.

Definition sqlite_integer (n : Z) : bool :=
  (min_rowid <=? n) && (n <=? max_rowid).

(** Binding a parameter of [cursor.execute]: a Python int that does not
    fit an INTEGER is an [OverflowError]; a [str] is bound as TEXT and
    the float NaN as NULL; a [Series] is no type [sqlite3] supports. *)
Definition bind_int (n : Z) : result Z :=
  if sqlite_integer n then Ok n else Raise OverflowError.

Definition bind_text (v : loc_value) : result (option string) :=
  match v with
  | Scalar (Text s) => Ok (Some s)
  | Scalar Missing => Ok None
  | Series _ => Raise ProgrammingError
  end.

(** The parameters of lines 150-156, bound from the first to the last. *)
Definition song_params (t : track) : result song_row :=
  id ← bind_int (track_id t);
  title ← bind_text (title t);
  artist ← bind_text (artist t);
  album ← bind_text (album t);
  mret {| song_track_id := id;
          song_title := title;
          song_artist := artist;
          song_album := album;
          song_file_path := file_path t |}.

(** The songs table after [INSERT OR REPLACE] of one row: [track_id] is
    the primary key, so the rows that hold the new row's key are deleted
    before it is inserted. *)
Definition upsert_song (rows : list song_row) (row : song_row) : list song_row :=
  filter (λ r, song_track_id r ≠ song_track_id row) rows ++ [row].

(** [cursor.execute('INSERT OR REPLACE INTO songs ...', (...))] for the
    track [t]: the statement is compiled, which needs the table, then the
    parameters are bound, then the row is written. *)
Definition insert_or_replace_song (t : track) (db : database) : result database :=
  match songs db with
  | None => Raise OperationalError
  | Some rows =>
      row ← song_params t;
      mret {| songs := Some (upsert_song rows row);
              mood_analysis := mood_analysis db;
              mood_seq := mood_seq db |}
  end.

(** The [mood_analysis] row of a mood vector, for the track [tid], under
    the key [id]. *)
Definition mood_row_of (id tid : Z) (m : moods) : mood_row :=
  {| mood_id := id;
     mood_track_id := tid;
     mood_happy := happy_intensity m;
     mood_sad := sad_intensity m;
     mood_energetic := energetic_intensity m;
     mood_calm := calm_intensity m;
     mood_angry := angry_intensity m |}.

(** The largest [id] in the table, when it has a row. *)
Definition last_mood_id (rows : list mood_row) : option Z :=
  match rows with
  | [] => None
  | r :: rest => Some (foldr Z.max (mood_id r) (mood_id <$> rest))
  end.

(** The key AUTOINCREMENT gives a new row: one more than the largest
    [id] in the table (1 for an empty table), and more than the largest
    one given out before. Once the largest possible key is in the table
    or has been given out, the insert fails: the database is full. *)
Definition new_mood_id (rows : list mood_row) (seq : Z) : result Z :=
  match last_mood_id rows with
  | None =>
      if max_rowid <=? seq then Raise OperationalError
      else Ok (Z.max 1 (seq + 1))
  | Some last =>
      if (max_rowid <=? last) || (max_rowid <=? seq) then Raise OperationalError
      else Ok (Z.max (last + 1) (seq + 1))
  end.

(** [cursor.execute('INSERT INTO mood_analysis ...', (...))]: a new row
    under a fresh [id]. *)
Definition insert_mood_analysis (tid : Z) (m : moods) (db : database) : result database :=
  match mood_analysis db with
  | None => Raise OperationalError
  | Some rows =>
      tid ← bind_int tid;
      id ← new_mood_id rows (mood_seq db);
      mret {| songs := songs db;
              mood_analysis := Some (rows ++ [mood_row_of id tid m]);
              mood_seq := id |}
  end.

(** A connection: what is durable, and what the open transaction sees. *)
Record connection : Type := {
  committed : database;
  working : database
}.

Definition connect (db : database) : connection :=
  {| committed := db; working := db |}.

Definition commit (c : connection) : connection :=
  {| committed := working c; working := working c |}.

(** ** The Batch Processor: [process_and_store] (app.py, lines 111-191) *)

Definition nl : string := String (ascii_of_nat 10) "".

Record run_state : Type := {
  conn : connection;
  processed_count : Z;
  error_count : Z;
  stdout : list string
}.

Definition print (line : string) (st : run_state) : run_state :=
  {| conn := conn st;
     processed_count := processed_count st;
     error_count := error_count st;
     stdout := (stdout st ++ [line])%list |}.

Definition count_error (st : run_state) : run_state :=
  {| conn := conn st;
     processed_count := processed_count st;
     error_count := error_count st + 1;
     stdout := stdout st |}.

Definition count_processed (st : run_state) : run_state :=
  {| conn := conn st;
     processed_count := processed_count st + 1;
     error_count := error_count st;
     stdout := stdout st |}.

Definition set_working (db : database) (st : run_state) : run_state :=
  {| conn := {| committed := committed (conn st); working := db |};
     processed_count := processed_count st;
     error_count := error_count st;
     stdout := stdout st |}.

Definition commit_state (st : run_state) : run_state :=
  {| conn := commit (conn st);
     processed_count := processed_count st;
     error_count := error_count st;
     stdout := stdout st |}.

(** The body of the inner loop (lines 136-181). A statement that raises
    leaves the statements before it in the open transaction, and the
    [except Exception] of line 179 counts the item as an error. The
    conversions of lines 165-170 are [int] of an int and [float] of the
    floats of a mood vector, which return their argument. *)
Definition process_track (env : environment) (st : run_state) (t : track) : run_state :=
  match extract_mood_features env (file_path t) with
  | Some fs =>
      match analyze_mood fs with
      | Some m =>
          match insert_or_replace_song t (working (conn st)) with
          | Ok db1 =>
              match insert_mood_analysis (track_id t) m db1 with
              | Ok db2 => count_processed (set_working db2 st)
              | Raise _ => count_error (set_working db1 st)
              end
          | Raise _ => count_error st
          end
      | None => count_error st
      end
  | None => count_error st
  end.

(** [range(start, stop, step)] *)
Definition py_range (start stop step : Z) : result (list Z) :=
  if step =? 0 then Raise ValueError
  else
    let len :=
      if 0 <? step then (stop - start + step - 1) / step
      else (start - stop - step - 1) / (- step) in
    Ok ((λ k, start + k * step) <$> seqZ 0 (Z.max 0 len)).

(** [l[i:j]] *)
Definition py_slice {A : Type} (l : list A) (i j : Z) : list A :=
  let len := Z.of_nat (length l) in
  let clip k := if k <? 0 then Z.max 0 (k + len) else Z.min k len in
  take (Z.to_nat (clip j - clip i)) (drop (Z.to_nat (clip i)) l).

(** The body of the outer loop (lines 132-185). *)
Definition process_batch (env : environment) (tracks : list track)
    (batch_size : Z) (st : run_state) (i : Z) : run_state :=
  let total_tracks := Z.of_nat (length tracks) in
  let batch := py_slice tracks i (i + batch_size) in
  let st := print (nl +:+ "Processing batch " +:+ pretty (i / batch_size + 1)
                   +:+ "/" +:+ pretty ((total_tracks + batch_size - 1) / batch_size)) st in
  let st := fold_left (process_track env) batch st in
  let st := commit_state st in
  print ("Progress: " +:+ pretty (processed_count st) +:+ "/"
         +:+ pretty total_tracks +:+ " tracks processed, "
         +:+ pretty (error_count st) +:+ " errors") st.

(** How a call ends: the early return of line 122 (the connection stays
    open), an exception that leaves the function, or the normal end after
    [conn.close()], with the database as it is on disk and the two
    counters. *)
Inductive outcome : Type :=
  | NoTracks (out : list string) (c : connection)
  | Uncaught (e : exn) (out : list string) (c : connection)
  | Completed (out : list string) (db : database) (processed errors : Z).

(** [db] is what the file music_mood.db holds when the run opens it (a
    missing file reads as [empty_database]). The lines printed to the
    terminal are kept; the log file and the progress bar are written and
    never read back, and are left out. *)
Definition process_and_store (env : environment) (batch_size : Z)
    (db : database) : outcome :=
  let c := connect db in
  let out := ["Loading tracks metadata..."] in
  let tracks := load_all_tracks env in
  match tracks with
  | [] => NoTracks (out ++ ["No tracks found!"])%list c
  | _ :: _ =>
      let total_tracks := Z.of_nat (length tracks) in
      let st := {| conn := c; processed_count := 0; error_count := 0;
                   stdout := (out ++ [nl +:+ "Processing " +:+ pretty total_tracks
                                      +:+ " tracks..."])%list |} in
      match py_range 0 total_tracks batch_size with
      | Raise e => Uncaught e (stdout st) (conn st)
      | Ok starts =>
          let st := fold_left (process_batch env tracks batch_size) starts st in
          Completed
            (stdout st ++
               [nl +:+ "Processing complete!";
                "Successfully processed: " +:+ pretty (processed_count st) +:+ " tracks";
                "Errors: " +:+ pretty (error_count st) +:+ " tracks";
                "Check the log file for details about any errors."])%list
            (committed (conn st)) (processed_count st) (error_count st)
      end
  end.

(** The mood vector of a track that passes extraction and scoring. *)
Definition scored (env : environment) (t : track) : option moods :=
  match extract_mood_features env (file_path t) with
  | Some fs => analyze_mood fs
  | None => None
  end.

Definition song_rows (db : database) : list song_row := default [] (songs db).
Definition mood_rows (db : database) : list mood_row := default [] (mood_analysis db).

Definition has_tables (db : database) : Prop :=
  is_Some (songs db) ∧ is_Some (mood_analysis db).

(** ** Set-up: [create_database] (setup_database.py, lines 4-54) *)

(** The files by name, what was written to the terminal, and whether
    [sqlite3.connect] can open or create a file of a given name (it cannot
    when the directory is missing or may not be written). A file that
    exists is a database file that [os.remove] can delete. *)
Record world : Type := {
  files : gmap string database;
  console : list string;
  can_connect : string → bool
}.

Definition say (line : string) (w : world) : world :=
  {| files := files w;
     console := (console w ++ [line])%list;
     can_connect := can_connect w |}.

(** [s.lower()] on the ASCII letters; no other character lowers to an
    ASCII letter, so a comparison with ["y"] is decided here as it is in
    Python. *)
Definition to_lower (c : ascii) : ascii :=
  let n := nat_of_ascii c in
  if ((65 <=? n) && (n <=? 90))%nat then ascii_of_nat (n + 32) else c.

Fixpoint lower (s : string) : string :=
  match s with
  | EmptyString => EmptyString
  | String c rest => String (to_lower c) (lower rest)
  end.

(** Lines 8-14: the check for an existing file. [inl w] is the
    [return False] of line 13, [inr w] goes on to line 16. The answer the
    user types is [user_input]; it is asked for only when the file
    exists. *)
Definition check_existing (db_name user_input : string) (w : world) : world + world :=
  match files w !! db_name with
  | Some _ =>
      let w := say ("Warning: Database " +:+ db_name +:+ " already exists!") w in
      let w := say "Do you want to create a new database? This will delete the existing one. (y/n): " w in
      if negb (String.eqb (lower user_input) "y") then
        inl (say "Database creation cancelled." w)
      else
        inr {| files := delete db_name (files w);
               console := console w;
               can_connect := can_connect w |}
  | None => inr w
  end.

(** [CREATE TABLE IF NOT EXISTS] for both tables. *)
Definition create_tables (db : database) : database :=
  {| songs := Some (song_rows db);
     mood_analysis := Some (mood_rows db);
     mood_seq := mood_seq db |}.

(** Lines 16-54. When [sqlite3.connect] opens the file (a missing one
    starts empty), the tables are created and committed and the call
    returns [True]. When it raises, [conn] is never bound: the handler of
    lines 49-51 prints the error and returns [False], and on the way out
    [conn.close()] in the [finally] block raises [UnboundLocalError],
    which is what leaves the function. *)
Definition create_database (db_name user_input : string) (w : world)
    : result bool * world :=
  match check_existing db_name user_input w with
  | inl w => (Ok false, w)
  | inr w =>
      if can_connect w db_name then
        let db := default empty_database (files w !! db_name) in
        (Ok true, say "Database created successfully!"
                    {| files := <[db_name := create_tables db]> (files w);
                       console := console w;
                       can_connect := can_connect w |})
      else
        (Raise UnboundLocalError,
         say "Error creating database: unable to open database file" w)
  end.

(** What an item changes: the open transaction and the two counters. *)
Definition progress (st : run_state) : database * Z * Z :=
  (working (conn st), processed_count st, error_count st).

(** The state in which the first item is processed. *)
Definition start_state (db : database) (out : list string) : run_state :=
  {| conn := connect db; processed_count := 0; error_count := 0; stdout := out |}.

(** All items in one pass, with no batch boundary. *)
Definition process_all (env : environment) (db : database) : run_state :=
  fold_left (process_track env) (load_all_tracks env) (start_state db []).

(** ** Notions for the properties of the pipeline *)

(** The entries [tracks.loc] finds for a label that is in the index. *)
Definition loc_entries (rows : list catalog_row) (track_id : Z)
    (column : catalog_row → entry) : loc_value :=
  match filter (λ r, row_track_id r = track_id) rows with
  | [r] => Scalar (column r)
  | rs => Series (column <$> rs)
  end.

(** The track the loader builds for a label of the index, if its audio
    file exists. *)
Definition track_at (env : environment) (rows : list catalog_row)
    (track_id : Z) : option track :=
  if path_exists env (get_audio_path track_id) then
    Some {| track_id := track_id;
            title := loc_entries rows track_id row_title;
            artist := loc_entries rows track_id row_artist;
            album := loc_entries rows track_id row_album;
            file_path := get_audio_path track_id |}
  else None.

Definition is_scalar (v : loc_value) : bool :=
  match v with
  | Scalar _ => true
  | Series _ => false
  end.

(** A track whose parameters bind: its id fits an INTEGER, and its
    title, artist and album are entries of the table (a [str] or a NaN),
    not [Series]. *)
Definition storable (t : track) : bool :=
  sqlite_integer (track_id t) && is_scalar (title t)
  && is_scalar (artist t) && is_scalar (album t).

(** A track for which the extractor returns a dictionary whose four read
    keys hold Python floats. These are the tracks that pass scoring, and
    the mood vector they get holds Python floats. *)
Definition float_features (env : environment) (t : track) : bool :=
  match extract_mood_features env (file_path t) with
  | Some fs => forallb (numeric_at fs) used_keys
  | None => false
  end.

(** A track that passes every stage, given the tables and a free key:
    float features and parameters that bind. *)
Definition passes_every_stage (env : environment) (t : track) : bool :=
  float_features env t && storable t.

(** No key of the mood_analysis table, in the table or given out,
    exceeds [bound], which is not negative. *)
Definition keys_below (bound : Z) (db : database) : Prop :=
  0 ≤ bound ∧ mood_seq db ≤ bound ∧ Forall (λ r, mood_id r ≤ bound) (mood_rows db).

(** The songs table after the rows of a list of tracks, one after the
    other; a track whose parameters do not bind writes nothing. *)
Definition upsert_songs (rows : list song_row) (ts : list track) : list song_row :=
  fold_left (λ rows t, match song_params t with
                       | Ok row => upsert_song rows row
                       | Raise _ => rows
                       end) ts rows.

(** Keys are unique in both tables. *)
Definition well_keyed (db : database) : Prop :=
  NoDup (song_track_id <$> song_rows db) ∧ NoDup (mood_id <$> mood_rows db).

(** ** Sample data *)

(** A catalog of three tracks whose audio files all exist; the features
    of track 5 come back without a tempo, and the album of track 10 is an
    empty field. *)
Definition example_rows : list catalog_row :=
  [ {| row_track_id := 2; row_title := Text "Food";
       row_artist := Text "AWOL";
       row_album := Text "AWOL - A Way Of Life" |};
    {| row_track_id := 5; row_title := Text "This World";
       row_artist := Text "AWOL";
       row_album := Text "AWOL - A Way Of Life" |};
    {| row_track_id := 10; row_title := Text "Freeway";
       row_artist := Text "Kurt Vile";
       row_album := Missing |} ].

Definition example_env : environment :=
  {| read_csv := Ok example_rows;
     path_exists := λ _, true;
     extract_mood_features := λ path,
       if String.eqb path "dataset/fma_small/000/000005.mp3"
       then Some (delete "tempo" example_features)
       else Some example_features |}.

(** The same surroundings with an unreadable metadata file. *)
Definition broken_catalog_env : environment :=
  {| read_csv := Raise ValueError;
     path_exists := λ _, true;
     extract_mood_features := λ _, None |}.

(** The sample catalog with no audio file on disk. *)
Definition no_audio_env : environment :=
  {| read_csv := Ok example_rows;
     path_exists := λ _, false;
     extract_mood_features := extract_mood_features example_env |}.

(** The sample catalog with the line of track 2 in it twice. *)
Definition repeated_id_env : environment :=
  {| read_csv := Ok (example_rows ++
                     [{| row_track_id := 2; row_title := Text "Food (live)";
                         row_artist := Text "AWOL";
                         row_album := Text "Live" |}]);
     path_exists := λ _, true;
     extract_mood_features := extract_mood_features example_env |}.

(** A database as [create_database] leaves it. *)
Definition fresh_database : database := create_tables empty_database.

(** A database file in which only the songs table was created. *)
Definition songs_only_database : database :=
  {| songs := Some []; mood_analysis := None; mood_seq := 0 |}.

(** A database whose AUTOINCREMENT key has reached the largest value. *)
Definition full_database : database :=
  {| songs := Some []; mood_analysis := Some []; mood_seq := max_rowid |}.

(** Track 2 of the sample catalog, under a title. *)
Definition example_track (title : string) : track :=
  {| track_id := 2; title := Scalar (Text title);
     artist := Scalar (Text "AWOL");
     album := Scalar (Text "AWOL - A Way Of Life");
     file_path := "dataset/fma_small/000/000002.mp3" |}.

Definition example_song (title : string) : song_row :=
  {| song_track_id := 2; song_title := Some title;
     song_artist := Some "AWOL";
     song_album := Some "AWOL - A Way Of Life";
     song_file_path := "dataset/fma_small/000/000002.mp3" |}.

(** Track 5 of the sample catalog, whose features lack the tempo. *)
Definition example_track_5 : track :=
  {| track_id := 5; title := Scalar (Text "This World");
     artist := Scalar (Text "AWOL");
     album := Scalar (Text "AWOL - A Way Of Life");
     file_path := "dataset/fma_small/000/000005.mp3" |}.

(** A track whose id is one above the largest INTEGER. *)
Definition huge_id_track : track :=
  {| track_id := 9223372036854775808; title := Scalar (Text "Food");
     artist := Scalar (Text "AWOL");
     album := Scalar (Text "AWOL - A Way Of Life");
     file_path := "dataset/fma_small/922/9223372036854775808.mp3" |}.

(** A machine on which the database file exists and can be opened, and
    one on which no file can be opened. *)
Definition example_world : world :=
  {| files := {[ "music_mood.db" := fresh_database ]};
     console := [];
     can_connect := λ _, true |}.


(** ** Notions for the float properties *)

(** A float that compares [0.0 <= x]: a zero of either sign, a positive
    number or plus infinity. *)
Definition nonneg (x : float) : bool :=
  match x with
  | S754_zero _ => true
  | S754_infinity s | S754_finite s _ _ => negb s
  | S754_nan => false
  end.

(** A mantissa of at most 53 bits. *)
Definition mantissa_bounded (x : float) : bool :=
  match x with
  | S754_finite _ m _ => Z.pos (digits2_pos m) <=? Float64.prec
  | _ => true
  end.

(** A feature vector whose tempo is a NaN, and one with four ordinary
    nonnegative inputs plus an infinite spectral centroid. *)
Definition nan_tempo_features : features :=
  <["tempo" := PyFloat S754_nan]> example_features.

Definition high_centroid_features : features :=
  <["spectral_centroid" := PyFloat (S754_infinity false)]> example_features.

(** ** The table printer: [format_table] (view_database.py, lines 4-46) *)

(** A cell is given by its [str], a string by its sequence of characters;
    [None] as a result stands for the [IndexError] of line 17. *)

(** [f'{s:<{width}}'] and [f' {s:<{width}} ']: spaces are added on the
    right up to [width]; nothing is cut. *)
Definition ljust (s : string) (width : nat) : string :=
  s +:+ repeat_string (width - String.length s) " ".

Definition format_cell (s : string) (width : nat) : string :=
  " " +:+ ljust s width +:+ " ".

(** Lines 16-17: [for i, cell in enumerate(row):
    widths[i] = max(widths[i], len(str(cell)))], from index [i] on. *)
Fixpoint widen_from (i : nat) (row : list string) (widths : list nat)
    : option (list nat) :=
  match row with
  | [] => Some widths
  | cell :: rest =>
      match widths !! i with
      | Some w =>
          widen_from (S i) rest (<[i := Nat.max w (String.length cell)]> widths)
      | None => None
      end
  end.

(** Lines 14-17. *)
Definition column_widths (headers : list string) (shown : list (list string))
    : option (list nat) :=
  foldl (λ acc row, acc ≫= widen_from 0 row)
        (Some (String.length <$> headers)) shown.

(** Line 10: [rows[:max_rows] if max_rows else rows]. *)
Definition display_rows (rows : list (list string)) (max_rows : option Z)
    : list (list string) :=
  match max_rows with
  | Some k => if k =? 0 then rows else py_slice rows 0 k
  | None => rows
  end.

(** Line 20. *)
Definition separator_line (widths : list nat) : string :=
  "+" +:+ String.concat "+" ((λ w, repeat_string (w + 2) "-") <$> widths) +:+ "+".

(** Lines 23-24 and 29-30. *)
Definition row_line (cells : list string) (widths : list nat) : string :=
  "|" +:+ String.concat "|" (zip_with format_cell cells widths) +:+ "|".

(** The list joined in lines 34-40. *)
Definition table_lines (headers : list string) (rows : list (list string))
    (max_rows : option Z) : option (list string) :=
  widths ← column_widths headers (display_rows rows max_rows);
  Some ([separator_line widths; row_line headers widths; separator_line widths]
        ++ ((λ row, row_line row widths) <$> display_rows rows max_rows)
        ++ [separator_line widths]).

(** Lines 43-44. *)
Definition hidden_rows_note (rows : list (list string)) (max_rows : option Z) : string :=
  match max_rows with
  | Some k =>
      if negb (k =? 0) && (k <? Z.of_nat (length rows)) then
        nl +:+ "... " +:+ pretty (Z.of_nat (length rows) - k)
           +:+ " more rows not shown ..."
      else ""
  | None => ""
  end.

Definition format_table (headers : list string) (rows : list (list string))
    (max_rows : option Z) : option string :=
  match rows with
  | [] => Some "No data available"
  | _ :: _ =>
      lines ← table_lines headers rows max_rows;
      Some (String.concat nl lines +:+ hidden_rows_note rows max_rows)
  end.

(** The width every line of a table with these column widths has. *)
Definition line_width (widths : list nat) : nat :=
  2 + sum_list ((λ w, w + 2)%nat <$> widths) + (length widths - 1).

Definition example_table_rows : list (list string) :=
  [["1"; "a"]; ["2"; "b"]; ["3"; "c"]].

(* ===================================================================== *)
(** * Part II: properties                                                 *)
(* ===================================================================== *)

(** ** Floats *)

Section FloatFacts.

(** The literals of the source and of the worked example, as bit
    patterns: mantissa and exponent of the binary64 number. *)
Example literal_1_0 : f1 = S754_finite false 4503599627370496 (-52).
Proof. reflexivity. Qed.

Example literal_180_0 : f180 = S754_finite false 6333186975989760 (-45).
Proof. reflexivity. Qed.

Example literal_0_05 :
  Float64.decimal 5 2 = S754_finite false 7205759403792794 (-57).
Proof. reflexivity. Qed.

Example literal_0_1 :
  Float64.decimal 1 1 = S754_finite false 7205759403792794 (-56).
Proof. reflexivity. Qed.

Example literal_0_5 :
  Float64.decimal 5 1 = S754_finite false 4503599627370496 (-53).
Proof. reflexivity. Qed.

Example literal_0_75 :
  Float64.decimal 75 2 = S754_finite false 6755399441055744 (-53).
Proof. reflexivity. Qed.

Example literal_0_25 :
  Float64.decimal 25 2 = S754_finite false 4503599627370496 (-54).
Proof. reflexivity. Qed.

Lemma ltb_leb (x y : float) : Float64.ltb x y = true → Float64.leb x y = true.
Proof.
  unfold Float64.ltb, Float64.leb, SFltb, SFleb.
  destruct (SFcompare x y) as [[]|]; congruence.
Qed.

Lemma py_min_le_left (a x : float) :
  Float64.leb a a = true → Float64.leb (Float64.py_min a x) a = true.
Proof.
  intros Ha. unfold Float64.py_min.
  destruct (Float64.ltb x a) eqn:E; [by apply ltb_leb | done].
Qed.

Lemma ltb_not_nan (x y : float) : Float64.ltb x y = true → Float64.is_nan x = false.
Proof. by destruct x. Qed.

Lemma py_min_not_nan (a x : float) :
  Float64.is_nan a = false → Float64.is_nan (Float64.py_min a x) = false.
Proof.
  intros Ha. unfold Float64.py_min.
  destruct (Float64.ltb x a) eqn:E; [by eapply ltb_not_nan | done].
Qed.

Lemma clamp01_le_1 (x : float) : Float64.leb (clamp01 x) f1 = true.
Proof. by apply py_min_le_left. Qed.

Lemma clamp01_not_nan (x : float) : Float64.is_nan (clamp01 x) = false.
Proof. by apply py_min_not_nan. Qed.

(** Rounding a nonnegative mantissa never produces a NaN, so neither do
    the float operations on arguments that have a value. *)

Lemma shr_1_nonneg (mrs : shr_record) : 0 ≤ shr_m mrs → 0 ≤ shr_m (shr_1 mrs).
Proof. destruct mrs as [[|[p|p|]|[p|p|]] r s]; simpl; lia. Qed.

Lemma iter_shr_1_nonneg (p : positive) (mrs : shr_record) :
  0 ≤ shr_m mrs → 0 ≤ shr_m (SpecFloat.iter_pos shr_1 p mrs).
Proof.
  revert mrs. induction p as [p IH|p IH|]; intros mrs H; simpl.
  - by apply IH, IH, shr_1_nonneg.
  - by apply IH, IH.
  - by apply shr_1_nonneg.
Qed.

Lemma shr_fexp_nonneg (prec emax m e : Z) (l : location) :
  0 ≤ m → 0 ≤ shr_m (fst (shr_fexp prec emax m e l)).
Proof.
  intros Hm. unfold shr_fexp, shr.
  assert (0 ≤ shr_m (shr_record_of_loc m l)) as H0.
  { by destruct l as [|[]]. }
  destruct (fexp prec emax (Zdigits2 m + e) - e) as [|p|p]; simpl; auto.
  by apply iter_shr_1_nonneg.
Qed.

Lemma round_nearest_even_nonneg (m : Z) (l : location) :
  0 ≤ m → 0 ≤ round_nearest_even m l.
Proof.
  intros Hm. destruct l as [|[]]; simpl; try lia.
  destruct (Z.even m); lia.
Qed.

Lemma binary_round_aux_not_nan (prec emax : Z) (sx : bool) (mx ex : Z) (lx : location) :
  0 ≤ mx → Float64.is_nan (binary_round_aux prec emax sx mx ex lx) = false.
Proof.
  intros Hm. unfold binary_round_aux.
  pose proof (shr_fexp_nonneg prec emax mx ex lx Hm) as H1.
  destruct (shr_fexp prec emax mx ex lx) as [mrs1 e1]. simpl in H1.
  pose proof (shr_fexp_nonneg prec emax
    (round_nearest_even (shr_m mrs1) (loc_of_shr_record mrs1)) e1 loc_Exact
    (round_nearest_even_nonneg _ _ H1)) as H2.
  destruct (shr_fexp prec emax _ e1 loc_Exact) as [mrs2 e2]. simpl in H2.
  destruct (shr_m mrs2) as [|q|q]; [done| |lia].
  by destruct (e2 <=? emax - prec).
Qed.

Lemma binary_normalize_not_nan (prec emax m e : Z) (sz : bool) :
  Float64.is_nan (binary_normalize prec emax m e sz) = false.
Proof.
  destruct m as [|q|q]; simpl; [done|..];
    unfold binary_round;
    destruct (shl_align _ _ _) as [mz ez];
    by apply binary_round_aux_not_nan.
Qed.

(** [1.0 - x] has a value whenever [x] has one. *)
Lemma sub_1_not_nan (x : float) :
  Float64.is_nan x = false → Float64.is_nan (Float64.sub f1 x) = false.
Proof.
  destruct x as [s|s| |s m e]; intros Hx; try done.
  change f1 with (S754_finite false 4503599627370496 (-52)).
  unfold Float64.sub, SFsub. apply binary_normalize_not_nan.
Qed.

(** Python's [==] holds between a float that is not a NaN and itself. *)
Lemma eqb_refl (x : float) : Float64.is_nan x = false → Float64.eqb x x = true.
Proof.
  unfold Float64.eqb, SFeqb.
  destruct x as [s|s| |s m e]; intros Hx; try done; simpl.
  - by destruct s.
  - rewrite Z.compare_refl.
    change (Pos.compare_cont Eq m m) with (Pos.compare m m).
    rewrite Pos.compare_refl. by destruct s.
Qed.

End FloatFacts.

(** ** The Mood Scorer *)

Section Scorer.

Implicit Types (fs : features) (m : moods) (k : string).

(** On four floats the code computes the formula of section 4.3. *)
Lemma analyze_mood_floats fs (t r c z : float) :
  fs !! "tempo" = Some (PyFloat t) →
  fs !! "rms_energy" = Some (PyFloat r) →
  fs !! "spectral_centroid" = Some (PyFloat c) →
  fs !! "zero_crossing_rate" = Some (PyFloat z) →
  analyze_mood fs = Some (mood_formula t r c z).
Proof.
  intros Ht Hr Hc Hz.
  unfold analyze_mood, analyze_mood_body, tempo_factor, energy_factor,
    brightness, getitem.
  rewrite Ht, Hr, Hc, Hz. reflexivity.
Qed.

(** A mood vector comes out only of four floats. *)
Lemma analyze_mood_Some_inv fs m :
  analyze_mood fs = Some m →
  ∃ t r c z : float,
    fs !! "tempo" = Some (PyFloat t) ∧
    fs !! "rms_energy" = Some (PyFloat r) ∧
    fs !! "spectral_centroid" = Some (PyFloat c) ∧
    fs !! "zero_crossing_rate" = Some (PyFloat z) ∧
    m = mood_formula t r c z.
Proof.
  unfold analyze_mood, analyze_mood_body, tempo_factor, energy_factor,
    brightness, getitem.
  destruct (fs !! "tempo") as [[t| |]|]; try discriminate;
  destruct (fs !! "rms_energy") as [[r| |]|]; try discriminate;
  destruct (fs !! "spectral_centroid") as [[c| |]|]; try discriminate;
  destruct (fs !! "zero_crossing_rate") as [[z| |]|]; try discriminate.
  intros [= <-]. by exists t, r, c, z.
Qed.

Lemma numeric_at_true fs k :
  numeric_at fs k = true ↔ ∃ x : float, fs !! k = Some (PyFloat x).
Proof.
  unfold numeric_at. split.
  - destruct (fs !! k) as [[x| |]|]; try discriminate. by exists x.
  - by intros [x ->].
Qed.

(** C1. On the worked example (tempo 180, rms_energy 0.05,
    spectral_centroid 2000, zero_crossing_rate 0.1) the scorer goes through
    tempo_factor 1.0, energy_factor 0.5 and brightness 0.5 and returns
    exactly energetic 0.75, happy 0.75, angry 0.05, calm 0.25, sad 0.25,
    which is the value of the formula of section 4.3. *)
Theorem analyze_mood_worked_example :
  tempo_factor example_features = Ok f1 ∧
  energy_factor example_features = Ok (PyFloat (Float64.decimal 5 1)) ∧
  brightness example_features = Ok (Float64.decimal 5 1) ∧
  analyze_mood example_features =
    Some {| happy_intensity := Float64.decimal 75 2;
            sad_intensity := Float64.decimal 25 2;
            energetic_intensity := Float64.decimal 75 2;
            calm_intensity := Float64.decimal 25 2;
            angry_intensity := Float64.decimal 5 2 |} ∧
  analyze_mood example_features =
    Some (mood_formula f180 (Float64.decimal 5 2) (Float64.of_Z 2000)
            (Float64.decimal 1 1)).
Proof. repeat split; vm_compute; reflexivity. Qed.

(** C2. Whenever the scorer returns a mood vector, its calm field is the
    float [1.0 - energetic] and its sad field is the float [1.0 - happy]:
    the same value, and equal under Python's [==] as well, since no field
    is a NaN. *)
Theorem calm_sad_complement fs m :
  analyze_mood fs = Some m →
  (calm_intensity m = Float64.sub f1 (energetic_intensity m) ∧
   sad_intensity m = Float64.sub f1 (happy_intensity m)) ∧
  (Float64.eqb (calm_intensity m) (Float64.sub f1 (energetic_intensity m)) = true ∧
   Float64.eqb (sad_intensity m) (Float64.sub f1 (happy_intensity m)) = true).
Proof.
  intros (t & r & c & z & _ & _ & _ & _ & ->)%analyze_mood_Some_inv.
  split; [done|]. simpl.
  split; apply eqb_refl, sub_1_not_nan, clamp01_not_nan.
Qed.

Lemma calm_sad_complement_witness :
  analyze_mood example_features = Some example_moods ∧
  Float64.eqb (calm_intensity example_moods)
    (Float64.sub f1 (energetic_intensity example_moods)) = true ∧
  Float64.eqb (sad_intensity example_moods)
    (Float64.sub f1 (happy_intensity example_moods)) = true.
Proof.
  assert (analyze_mood example_features = Some example_moods) as H
    by (vm_compute; reflexivity).
  split; [exact H|].
  exact (proj2 (calm_sad_complement example_features example_moods H)).
Defined.

(** C3. Whenever the scorer returns a mood vector, energetic and happy
    are at most 1.0; nothing bounds them from below: with tempo -180 and
    the other inputs 0 both come out as -0.5, below 0.0. *)
Theorem energetic_happy_upper_bound :
  (∀ fs m, analyze_mood fs = Some m →
     Float64.leb (energetic_intensity m) f1 = true ∧
     Float64.leb (happy_intensity m) f1 = true) ∧
  (∃ fs m, fs !! "tempo" = Some (PyFloat (Float64.of_Z (-180))) ∧
     analyze_mood fs = Some m ∧
     Float64.ltb (energetic_intensity m) f0 = true ∧
     Float64.ltb (happy_intensity m) f0 = true).
Proof.
  split.
  - intros fs m (t & r & c & z & _ & _ & _ & _ & ->)%analyze_mood_Some_inv.
    simpl. split; apply clamp01_le_1.
  - exists negative_tempo_features,
      (mood_formula (Float64.of_Z (-180)) f0 f0 f0).
    repeat split; vm_compute; reflexivity.
Qed.

Lemma energetic_happy_upper_bound_witness :
  analyze_mood example_features = Some example_moods ∧
  Float64.leb (energetic_intensity example_moods) f1 = true ∧
  Float64.leb (happy_intensity example_moods) f1 = true.
Proof.
  assert (analyze_mood example_features = Some example_moods) as H
    by (vm_compute; reflexivity).
  split; [exact H|].
  exact (proj1 energetic_happy_upper_bound example_features example_moods H).
Defined.

(** C8, as stated, fails: the worked example has no spectral_bandwidth
    key, one of the keys the data model requires, and the scorer still
    returns a mood vector for it. *)
Lemma analyze_mood_without_spectral_bandwidth :
  "spectral_bandwidth" ∈ required_keys ∧
  example_features !! "spectral_bandwidth" = None ∧
  ∃ m, analyze_mood example_features = Some m.
Proof.
  split; [|split].
  - apply list_elem_of_In. simpl. tauto.
  - vm_compute. reflexivity.
  - eexists. vm_compute. reflexivity.
Qed.

(** C8, amended. The scorer returns the failure signal [None] whenever
    one of the four keys it reads (tempo, rms_energy, spectral_centroid,
    zero_crossing_rate) is absent or holds no number, and a mood vector
    whenever these four hold floats, whatever the other keys do. *)
Theorem analyze_mood_fails_iff_read_key_bad :
  (∀ fs k, k ∈ used_keys → numeric_at fs k = false → analyze_mood fs = None) ∧
  (∀ fs, (∀ k, k ∈ used_keys → numeric_at fs k = true) →
     ∃ m, analyze_mood fs = Some m).
Proof.
  split.
  - intros fs k Hk Hnum.
    destruct (analyze_mood fs) as [m|] eqn:E; [|done].
    apply analyze_mood_Some_inv in E
      as (t & r & c & z & Ht & Hr & Hc & Hz & _).
    unfold used_keys in Hk. unfold numeric_at in Hnum.
    repeat (apply elem_of_cons in Hk as [->|Hk];
            [by rewrite ?Ht, ?Hr, ?Hc, ?Hz in Hnum|]).
    by apply elem_of_nil in Hk.
  - intros fs Hall.
    assert (∀ k, k ∈ used_keys → ∃ x : float, fs !! k = Some (PyFloat x)) as H.
    { intros k Hk. by apply numeric_at_true, Hall. }
    destruct (H "tempo") as [t Ht]; [set_solver|].
    destruct (H "rms_energy") as [r Hr]; [set_solver|].
    destruct (H "spectral_centroid") as [c Hc]; [set_solver|].
    destruct (H "zero_crossing_rate") as [z Hz]; [set_solver|].
    eexists. by apply analyze_mood_floats.
Qed.

Lemma analyze_mood_fails_iff_read_key_bad_witness :
  analyze_mood (<["tempo" := PyStr "fast"]> example_features) = None ∧
  ∃ m, analyze_mood example_features = Some m.
Proof.
  split.
  - apply (proj1 analyze_mood_fails_iff_read_key_bad _ "tempo").
    + apply list_elem_of_In. simpl. tauto.
    + vm_compute. reflexivity.
  - apply (proj2 analyze_mood_fails_iff_read_key_bad).
    intros k Hk. unfold used_keys in Hk.
    repeat (apply elem_of_cons in Hk as [->|Hk]; [vm_compute; reflexivity|]).
    by apply elem_of_nil in Hk.
Defined.

(** C9. The scorer reads four keys only: two feature vectors that agree
    on tempo, rms_energy, spectral_centroid and zero_crossing_rate (value
    or absence) get the same answer, whatever they hold elsewhere. *)
Theorem analyze_mood_depends_on_read_keys fs1 fs2 :
  (∀ k, k ∈ used_keys → fs1 !! k = fs2 !! k) →
  analyze_mood fs1 = analyze_mood fs2 ∧
  analyze_mood_body fs1 = analyze_mood_body fs2.
Proof.
  intros H.
  assert (analyze_mood_body fs1 = analyze_mood_body fs2) as Hb.
  { unfold analyze_mood_body, tempo_factor, energy_factor, brightness, getitem.
    rewrite (H "tempo"), (H "rms_energy"), (H "spectral_centroid"),
      (H "zero_crossing_rate") by set_solver.
    reflexivity. }
  unfold analyze_mood. by rewrite Hb.
Qed.

Lemma analyze_mood_depends_on_read_keys_witness :
  analyze_mood (<["spectral_bandwidth" := PyStr "wide"]>
                  (<["mfcc_0" := PyNone]> example_features))
  = analyze_mood example_features.
Proof.
  apply analyze_mood_depends_on_read_keys.
  intros k Hk. unfold used_keys in Hk.
  repeat (apply elem_of_cons in Hk as [->|Hk]; [vm_compute; reflexivity|]).
  by apply elem_of_nil in Hk.
Defined.

End Scorer.

(** ** Paths *)

Section Paths.

Lemma app_cons (c : ascii) (s1 s2 : string) :
  String c s1 +:+ s2 = String c (s1 +:+ s2).
Proof. reflexivity. Qed.

Lemma repeat_zero_snoc (n : nat) (s : string) :
  repeat_string n "0" +:+ String "0" s = repeat_string (S n) "0" +:+ s.
Proof.
  induction n as [|n IH]; [done|].
  change (repeat_string (S n) "0") with (String "0" (repeat_string n "0")).
  rewrite app_cons, IH. reflexivity.
Qed.

Lemma pad_digits_0 (k : nat) (acc : string) :
  pad_digits k 0 acc = repeat_string k "0" +:+ acc.
Proof.
  revert acc. induction k as [|k IH]; intros acc; [done|].
  change (pad_digits (S k) 0 acc) with (pad_digits k 0 (String "0" acc)).
  rewrite IH. apply repeat_zero_snoc.
Qed.

(** Below [10^k], [pad_digits k] is [str] with zeros in front. *)
Lemma pad_digits_pretty (k : nat) (n : N) (acc : string) :
  (n < 10 ^ N.of_nat k)%N →
  ∃ j : nat,
    pad_digits k n acc = repeat_string j "0" +:+ pretty_N_go n acc ∧
    (String.length (pretty_N_go n acc) + j = k + String.length acc)%nat.
Proof.
  revert n acc. induction k as [|k IH]; intros n acc Hn.
  - assert (n = 0%N) as -> by (simpl in Hn; lia).
    exists O. by rewrite pretty_N_go_0.
  - destruct (decide (n = 0%N)) as [->|Hpos].
    + exists (S k). rewrite pad_digits_0, pretty_N_go_0. split; [done|lia].
    + rewrite pretty_N_go_step by lia.
      destruct (IH (n `div` 10)%N (String (digit_of n) acc)) as (j & E & L).
      { apply N.Div0.div_lt_upper_bound.
        replace (N.of_nat (S k)) with (N.succ (N.of_nat k)) in Hn by lia.
        by rewrite N.pow_succ_r' in Hn. }
      exists j. split; [exact E|]. simpl in L. unfold digit_of in L. lia.
Qed.

(** [str] of a positive number starts with a digit. *)
Lemma pretty_N_go_head (n : N) (acc : string) :
  (0 < n)%N → ∃ d rest, pretty_N_go n acc = String (pretty_N_char d) rest.
Proof.
  revert acc. induction (N.lt_wf_0 n) as [n _ IH]; intros acc Hn.
  rewrite pretty_N_go_step by done.
  destruct (decide (n `div` 10 = 0)%N) as [->|Hq].
  - rewrite pretty_N_go_0. eauto.
  - apply IH; [apply N.div_lt; lia | by apply N.neq_0_lt_0].
Qed.

Lemma pretty_N_char_not_sign (d : N) :
  (Ascii.eqb (pretty_N_char d) "+" || Ascii.eqb (pretty_N_char d) "-")%bool = false.
Proof. unfold pretty_N_char. by repeat case_match. Qed.

Lemma pretty_N_char_not_slash (d : N) : Ascii.eqb (pretty_N_char d) "/" = false.
Proof. unfold pretty_N_char. by repeat case_match. Qed.

Lemma six_digits_pad (n : N) : six_digits n = pad_digits 6 n "".
Proof.
  unfold six_digits, pad_digits, digit_of.
  rewrite !N.Div0.div_div. reflexivity.
Qed.

Lemma six_digits_length (n : N) : String.length (six_digits n) = 6%nat.
Proof. reflexivity. Qed.

(** Ids of at most six digits are padded to exactly six. *)
Lemma tid_str_six_digits (track_id : Z) :
  0 ≤ track_id ≤ 999999 → tid_str track_id = six_digits (Z.to_N track_id).
Proof.
  intros Hid. rewrite six_digits_pad. unfold tid_str.
  destruct track_id as [|p|p]; [reflexivity| |lia].
  change (pretty (Z.pos p)) with (pretty_N_go (N.pos p) "").
  change (Z.to_N (Z.pos p)) with (N.pos p).
  destruct (pad_digits_pretty 6 (N.pos p) "") as (j & -> & L); [simpl; lia|].
  destruct (pretty_N_go_head (N.pos p) "") as (d & rest & E); [lia|].
  rewrite E in *. unfold zfill.
  destruct (6 <=? String.length (String (pretty_N_char d) rest))%nat eqn:Hw.
  - apply Nat.leb_le in Hw. simpl in L, Hw.
    by replace j with O by lia.
  - apply Nat.leb_gt in Hw. rewrite pretty_N_char_not_sign.
    simpl in L, Hw |- *.
    by replace (5 - String.length rest)%nat with j by lia.
Qed.

Lemma ends_with_slash_snoc (s : string) (c : ascii) :
  ends_with_slash (s +:+ String c "") = Ascii.eqb c "/".
Proof.
  induction s as [|a s IH]; [done|].
  rewrite app_cons. simpl. rewrite IH.
  by destruct s.
Qed.

(** The join of the four components, for a directory and a file name
    that start with a character other than the separator. *)
Lemma path_join_shard (c5 c4 c3 : ascii) (rest : string) :
  Ascii.eqb c5 "/" = false →
  Ascii.eqb c3 "/" = false →
  path_join "dataset"
    ["fma_small"; String c5 (String c4 (String c3 "")); String c5 rest]
  = "dataset/fma_small/" +:+ String c5 (String c4 (String c3 ""))
      +:+ "/" +:+ String c5 rest.
Proof.
  intros H5 H3.
  change (path_join _ _) with
    (join_step (join_step "dataset/fma_small"
                  (String c5 (String c4 (String c3 ""))))
       (String c5 rest)).
  assert (join_step "dataset/fma_small" (String c5 (String c4 (String c3 "")))
          = ("dataset/fma_small/" +:+ String c5 (String c4 "")) +:+ String c3 "")
    as ->.
  { unfold join_step. simpl starts_with_slash. by rewrite H5. }
  unfold join_step. simpl starts_with_slash.
  rewrite H5, ends_with_slash_snoc, H3. reflexivity.
Qed.

Lemma get_audio_path_sharded (track_id : Z) :
  0 ≤ track_id ≤ 999999 → get_audio_path track_id = sharded_path (Z.to_N track_id).
Proof.
  intros Hid. unfold get_audio_path. rewrite tid_str_six_digits by done.
  unfold sharded_path, six_digits, first_three_digits, digit_of.
  apply path_join_shard; apply pretty_N_char_not_slash.
Qed.

(** C4, as stated, fails beyond six digits: [zfill] never cuts, so the
    id 1234567 is formatted with seven digits, and a negative id keeps its
    sign in the directory name. *)
Lemma get_audio_path_seven_digits :
  tid_str 1234567 = "1234567" ∧
  String.length (tid_str 1234567) ≠ 6%nat ∧
  get_audio_path 1234567 = "dataset/fma_small/123/1234567.mp3" ∧
  get_audio_path (-42) = "dataset/fma_small/-00/-00042.mp3".
Proof. repeat split; vm_compute; congruence. Qed.

(** C4, amended. For every track id from 0 to 999999, [get_audio_path]
    formats the id as its six decimal digits (zero-padded), takes the
    first three as the subdirectory and the six digits plus ".mp3" as the
    file name under dataset/fma_small; id 42 gives
    dataset/fma_small/000/000042.mp3 and id 123456 gives
    dataset/fma_small/123/123456.mp3. *)
Theorem get_audio_path_six_digit_ids :
  (∀ track_id : Z, 0 ≤ track_id ≤ 999999 →
     tid_str track_id = six_digits (Z.to_N track_id) ∧
     String.length (tid_str track_id) = 6%nat ∧
     str_take 3 (tid_str track_id) = first_three_digits (Z.to_N track_id) ∧
     get_audio_path track_id =
       "dataset/fma_small/" +:+ str_take 3 (tid_str track_id) +:+ "/"
         +:+ tid_str track_id +:+ ".mp3") ∧
  get_audio_path 42 = "dataset/fma_small/000/000042.mp3" ∧
  get_audio_path 123456 = "dataset/fma_small/123/123456.mp3".
Proof.
  split; [|split; vm_compute; reflexivity].
  intros track_id Hid.
  pose proof (get_audio_path_sharded track_id Hid) as Hp.
  rewrite Hp, (tid_str_six_digits track_id Hid).
  repeat split.
Qed.

Lemma get_audio_path_six_digit_ids_witness :
  0 ≤ 155320 ≤ 999999 ∧
  get_audio_path 155320 =
    "dataset/fma_small/" +:+ str_take 3 (tid_str 155320) +:+ "/"
      +:+ tid_str 155320 +:+ ".mp3".
Proof.
  split; [lia|].
  apply (proj1 get_audio_path_six_digit_ids 155320). lia.
Defined.

End Paths.

(** ** The store *)

Section Store.

Implicit Types (db : database) (t : track) (row : song_row) (rows : list song_row).

Lemma filter_key_after_replace rows row :
  filter (λ r, song_track_id r = song_track_id row) (upsert_song rows row) = [row].
Proof.
  unfold upsert_song.
  rewrite filter_app, filter_cons_True, filter_nil by done.
  rewrite (elem_of_nil_inv (filter _ (filter _ rows))); [done|].
  intros r [Heq [Hne _]%list_elem_of_filter]%list_elem_of_filter. done.
Qed.

(** *** Binding the parameters *)

Lemma song_params_Ok t row :
  song_params t = Ok row ↔
  sqlite_integer (track_id t) = true ∧
  song_track_id row = track_id t ∧
  bind_text (title t) = Ok (song_title row) ∧
  bind_text (artist t) = Ok (song_artist row) ∧
  bind_text (album t) = Ok (song_album row) ∧
  song_file_path row = file_path t.
Proof.
  unfold song_params, bind_int.
  destruct (sqlite_integer (track_id t)); simpl;
    [|split; [done|by intros [? _]]].
  destruct (bind_text (title t)) as [ti|e1]; simpl;
    [|split; [done|by intros (_ & _ & ? & _)]].
  destruct (bind_text (artist t)) as [ar|e2]; simpl;
    [|split; [done|by intros (_ & _ & _ & ? & _)]].
  destruct (bind_text (album t)) as [al|e3]; simpl;
    [|split; [done|by intros (_ & _ & _ & _ & ? & _)]].
  split.
  - by intros [= <-].
  - destruct row as [id' ti' ar' al' fp']. simpl.
    by intros (_ & -> & [= ->] & [= ->] & [= ->] & ->).
Qed.

Lemma bind_text_scalar (v : loc_value) :
  is_scalar v = true ↔ ∃ s, bind_text v = Ok s.
Proof.
  destruct v as [[s|]|l]; simpl; split; try done; try (intros _; by eexists).
  by intros [? ?].
Qed.

Lemma song_params_storable t :
  storable t = true ↔ ∃ row, song_params t = Ok row.
Proof.
  unfold storable. rewrite !andb_true_iff, !bind_text_scalar. split.
  - intros (((Hid & [ti Hti]) & [ar Har]) & [al Hal]).
    exists {| song_track_id := track_id t; song_title := ti;
              song_artist := ar; song_album := al;
              song_file_path := file_path t |}.
    by apply song_params_Ok.
  - intros [row (Hid & _ & Hti & Har & Hal & _)%song_params_Ok].
    repeat split; [done|by eexists..].
Qed.

Lemma song_params_track_id t row :
  song_params t = Ok row → song_track_id row = track_id t.
Proof. by intros (_ & ? & _)%song_params_Ok. Qed.

(** *** The two statements *)

Lemma insert_or_replace_song_Ok t db db' :
  insert_or_replace_song t db = Ok db' ↔
  ∃ rows row, songs db = Some rows ∧ song_params t = Ok row ∧
    db' = {| songs := Some (upsert_song rows row);
             mood_analysis := mood_analysis db;
             mood_seq := mood_seq db |}.
Proof.
  unfold insert_or_replace_song.
  destruct (songs db) as [rows|].
  - destruct (song_params t) as [row|e] eqn:E; simpl; split.
    + intros [= <-]. by exists rows, row.
    + by intros (rows' & row' & [= <-] & [= <-] & ->).
    + done.
    + by intros (? & ? & _ & ? & _).
  - split; [done|]. by intros (? & ? & ? & _).
Qed.

Lemma insert_or_replace_song_succeeds t db :
  (∃ db', insert_or_replace_song t db = Ok db') ↔
  is_Some (songs db) ∧ storable t = true.
Proof.
  rewrite song_params_storable. split.
  - intros (db' & (rows & row & Hs & Hp & _)%insert_or_replace_song_Ok).
    split; by eexists.
  - intros [[rows Hs] [row Hp]]. eexists.
    apply insert_or_replace_song_Ok. by exists rows, row.
Qed.

Lemma foldr_max_spec (a : Z) (l : list Z) :
  (foldr Z.max a l = a ∨ foldr Z.max a l ∈ l) ∧
  a ≤ foldr Z.max a l ∧
  ∀ x, x ∈ l → x ≤ foldr Z.max a l.
Proof.
  induction l as [|y l (IH1 & IH2 & IH3)]; cbn [foldr].
  - split; [by left|]. split; [lia|]. by intros x ?%elem_of_nil.
  - split; [|split].
    + destruct (Z.max_spec y (foldr Z.max a l)) as [[_ ->]|[_ ->]].
      * destruct IH1 as [?|?]; [by left|by right; right].
      * right. by left.
    + lia.
    + intros x [->|Hin]%elem_of_cons; [lia|]. specialize (IH3 x Hin). lia.
Qed.

Lemma last_mood_id_spec (mrows : list mood_row) :
  match last_mood_id mrows with
  | None => mrows = []
  | Some last =>
      (∃ r, r ∈ mrows ∧ mood_id r = last) ∧ ∀ r, r ∈ mrows → mood_id r ≤ last
  end.
Proof.
  destruct mrows as [|r0 mrows]; [done|]. cbn [last_mood_id].
  destruct (foldr_max_spec (mood_id r0) (mood_id <$> mrows)) as (H1 & H2 & H3).
  split.
  - destruct H1 as [->|(r & Heq & Hin)%list_elem_of_fmap].
    + exists r0. split; [by left|done].
    + exists r. split; [by right|done].
  - intros r [->|Hin]%elem_of_cons; [done|].
    apply H3, list_elem_of_fmap. by exists r.
Qed.

Lemma new_mood_id_Ok (mrows : list mood_row) (seq id : Z) :
  new_mood_id mrows seq = Ok id →
  seq < id ∧ (∀ r, r ∈ mrows → mood_id r < id) ∧ id ≤ max_rowid.
Proof.
  unfold new_mood_id. pose proof (last_mood_id_spec mrows) as H.
  destruct (last_mood_id mrows) as [last|].
  - destruct H as [_ Hle].
    destruct (max_rowid <=? last) eqn:E1; [done|].
    destruct (max_rowid <=? seq) eqn:E2; [done|]. simpl.
    intros [= <-]. apply Z.leb_gt in E1, E2.
    split; [lia|]. split; [|unfold max_rowid in *; lia].
    intros r Hr. specialize (Hle r Hr). lia.
  - subst mrows. destruct (max_rowid <=? seq) eqn:E2; [done|].
    intros [= <-]. apply Z.leb_gt in E2.
    split; [lia|]. split; [by intros r ?%elem_of_nil|]. unfold max_rowid in *. lia.
Qed.

Lemma new_mood_id_room (mrows : list mood_row) (seq bound : Z) :
  0 ≤ bound → bound < max_rowid →
  seq ≤ bound → Forall (λ r, mood_id r ≤ bound) mrows →
  ∃ id, new_mood_id mrows seq = Ok id ∧ id ≤ bound + 1.
Proof.
  intros H0 Hb Hseq Hall. unfold new_mood_id.
  pose proof (last_mood_id_spec mrows) as H.
  destruct (last_mood_id mrows) as [last|].
  - destruct H as [(r & Hr & <-) _].
    rewrite Forall_forall in Hall. specialize (Hall r Hr). simpl in Hall.
    destruct (max_rowid <=? mood_id r) eqn:E1; [apply Z.leb_le in E1; lia|].
    destruct (max_rowid <=? seq) eqn:E2; [apply Z.leb_le in E2; lia|]. simpl.
    eexists. split; [done|]. lia.
  - destruct (max_rowid <=? seq) eqn:E2; [apply Z.leb_le in E2; lia|].
    eexists. split; [done|]. lia.
Qed.

Lemma insert_mood_analysis_Ok db (tid : Z) (m : moods) db' :
  insert_mood_analysis tid m db = Ok db' ↔
  ∃ mrows id, mood_analysis db = Some mrows ∧ sqlite_integer tid = true ∧
    new_mood_id mrows (mood_seq db) = Ok id ∧
    db' = {| songs := songs db;
             mood_analysis := Some (mrows ++ [mood_row_of id tid m]);
             mood_seq := id |}.
Proof.
  unfold insert_mood_analysis, bind_int.
  destruct (mood_analysis db) as [mrows|].
  - destruct (sqlite_integer tid); simpl.
    + destruct (new_mood_id mrows (mood_seq db)) as [id|e] eqn:E; simpl; split.
      * intros [= <-]. by exists mrows, id.
      * intros (? & ? & [= <-] & _ & Hid & ->). rewrite E in Hid.
        by injection Hid as <-.
      * done.
      * intros (? & ? & [= <-] & _ & Hid & _). by rewrite E in Hid.
    + split; [done|]. by intros (? & ? & _ & ? & _).
  - split; [done|]. by intros (? & ? & ? & _).
Qed.

(** With a free key the insert succeeds, and the keys stay below the
    next bound. *)
Lemma insert_mood_analysis_room db (tid : Z) (m : moods) (bound : Z) :
  is_Some (mood_analysis db) →
  sqlite_integer tid = true →
  keys_below bound db → bound < max_rowid →
  ∃ db' id, insert_mood_analysis tid m db = Ok db' ∧
    mood_rows db' = mood_rows db ++ [mood_row_of id tid m] ∧
    songs db' = songs db ∧
    keys_below (bound + 1) db'.
Proof.
  intros [mrows Hm] Htid (H0 & Hseq & Hall) Hb.
  unfold mood_rows in Hall. rewrite Hm in Hall. simpl in Hall.
  destruct (new_mood_id_room mrows (mood_seq db) bound H0 Hb Hseq Hall)
    as (id & Hid & Hle).
  eexists _, id. split.
  { apply insert_mood_analysis_Ok. by exists mrows, id. }
  unfold mood_rows, keys_below. rewrite Hm. simpl.
  split; [done|]. split; [done|]. split; [lia|]. split; [done|].
  apply Forall_app. split; [|by constructor].
  eapply Forall_impl; [exact Hall|]. simpl. intros. lia.
Qed.

(** C7. Two successful writes of a songs row under one track_id leave
    exactly one row with that id, which carries the values of the second
    write; two successful writes of a mood_analysis row for one track_id
    append two rows with different keys, so the rows of that track_id grow
    by two. The two songs writes succeed whenever the table exists and the
    parameters bind; the two mood_analysis writes succeed whenever the
    table exists, the track_id fits an INTEGER and two keys are free. *)
Theorem songs_upsert_mood_analysis_append :
  (∀ db t1 t2 db1 db2,
     track_id t1 = track_id t2 →
     insert_or_replace_song t1 db = Ok db1 →
     insert_or_replace_song t2 db1 = Ok db2 →
     ∃ row2, song_params t2 = Ok row2 ∧
       filter (λ r, song_track_id r = track_id t2) (song_rows db2) = [row2]) ∧
  (∀ db (tid : Z) (m1 m2 : moods) db1 db2,
     insert_mood_analysis tid m1 db = Ok db1 →
     insert_mood_analysis tid m2 db1 = Ok db2 →
     ∃ r1 r2 : mood_row,
       mood_rows db2 = mood_rows db ++ [r1; r2] ∧
       r1 = mood_row_of (mood_id r1) tid m1 ∧
       r2 = mood_row_of (mood_id r2) tid m2 ∧
       mood_id r1 ≠ mood_id r2 ∧
       length (filter (λ r, mood_track_id r = tid) (mood_rows db2)) =
         S (S (length (filter (λ r, mood_track_id r = tid) (mood_rows db))))) ∧
  (∀ db t1 t2,
     is_Some (songs db) → storable t1 = true → storable t2 = true →
     ∃ db1 db2,
       insert_or_replace_song t1 db = Ok db1 ∧
       insert_or_replace_song t2 db1 = Ok db2) ∧
  (∀ db (tid : Z) (m1 m2 : moods),
     is_Some (mood_analysis db) → sqlite_integer tid = true →
     keys_below (max_rowid - 2) db →
     ∃ db1 db2,
       insert_mood_analysis tid m1 db = Ok db1 ∧
       insert_mood_analysis tid m2 db1 = Ok db2).
Proof.
  split; [|split; [|split]].
  - intros db t1 t2 db1 db2 Hid
      (rows & row1 & Hs & Hp1 & ->)%insert_or_replace_song_Ok
      (rows1 & row2 & Hs1 & Hp2 & ->)%insert_or_replace_song_Ok.
    exists row2. split; [done|]. unfold song_rows. simpl.
    rewrite <-(song_params_track_id t2 row2 Hp2).
    apply filter_key_after_replace.
  - intros db tid m1 m2 db1 db2
      (mrows & id1 & Hm & _ & Hid1 & ->)%insert_mood_analysis_Ok
      (mrows1 & id2 & Hm1 & _ & Hid2 & ->)%insert_mood_analysis_Ok.
    simpl in Hm1, Hid2. injection Hm1 as <-.
    apply new_mood_id_Ok in Hid2 as (Hlt & _).
    exists (mood_row_of id1 tid m1), (mood_row_of id2 tid m2).
    unfold mood_rows. rewrite Hm. simpl. rewrite <-(assoc_L (++)). simpl.
    split; [done|]. split; [done|]. split; [done|]. split; [lia|].
    rewrite filter_app, !filter_cons_True, filter_nil by done.
    rewrite length_app. simpl. lia.
  - intros db t1 t2 Hs H1 H2.
    destruct (proj2 (insert_or_replace_song_succeeds t1 db)) as [db1 E1]; [done|].
    assert (is_Some (songs db1)) as Hs1.
    { apply insert_or_replace_song_Ok in E1 as (? & ? & _ & _ & ->). by eexists. }
    destruct (proj2 (insert_or_replace_song_succeeds t2 db1)) as [db2 E2]; [done|].
    by exists db1, db2.
  - intros db tid m1 m2 Hm Htid Hk.
    destruct (insert_mood_analysis_room db tid m1 (max_rowid - 2) Hm Htid Hk)
      as (db1 & id1 & E1 & R1 & _ & Hk1); [lia|].
    assert (is_Some (mood_analysis db1)) as Hm1.
    { apply insert_mood_analysis_Ok in E1 as (? & ? & _ & _ & _ & ->). by eexists. }
    destruct (insert_mood_analysis_room db1 tid m2 (max_rowid - 2 + 1) Hm1 Htid Hk1)
      as (db2 & id2 & E2 & _); [lia|].
    by exists db1, db2.
Qed.

Lemma songs_upsert_mood_analysis_append_witness :
  (∃ db1 db2,
     insert_or_replace_song (example_track "Food") fresh_database = Ok db1 ∧
     insert_or_replace_song (example_track "Food (remaster)") db1 = Ok db2 ∧
     filter (λ r, song_track_id r = 2) (song_rows db2)
       = [example_song "Food (remaster)"]) ∧
  (∃ db1 db2 (r1 r2 : mood_row),
     insert_mood_analysis 2 example_moods fresh_database = Ok db1 ∧
     insert_mood_analysis 2 example_moods db1 = Ok db2 ∧
     mood_rows db2 = mood_rows fresh_database ++ [r1; r2] ∧
     mood_id r1 ≠ mood_id r2).
Proof.
  destruct songs_upsert_mood_analysis_append as (Hsongs & Hmoods & Hs_ok & Hm_ok).
  split.
  - destruct (Hs_ok fresh_database (example_track "Food")
                (example_track "Food (remaster)"))
      as (db1 & db2 & E1 & E2); [by eexists|reflexivity|reflexivity|].
    destruct (Hsongs fresh_database (example_track "Food")
                (example_track "Food (remaster)") db1 db2 eq_refl E1 E2)
      as (row2 & Hp & Hf).
    injection Hp as <-. by exists db1, db2.
  - destruct (Hm_ok fresh_database 2 example_moods example_moods)
      as (db1 & db2 & E1 & E2).
    + by eexists.
    + reflexivity.
    + split; [by vm_compute|]. split; [by vm_compute|constructor].
    + destruct (Hmoods fresh_database 2 example_moods example_moods db1 db2 E1 E2)
        as (r1 & r2 & R & _ & _ & Hne & _).
      by exists db1, db2, r1, r2.
Defined.

End Store.

(** ** The Catalog Loader *)

Section Catalog.

Implicit Types (env : environment) (rows : list catalog_row) (t : track).

(** *** The loop never raises *)

Lemma loc_in_index rows (id : Z) (column : catalog_row → entry) :
  id ∈ row_track_id <$> rows →
  loc rows id column = Ok (loc_entries rows id column).
Proof.
  intros (r & -> & Hr)%list_elem_of_fmap. unfold loc, loc_entries.
  destruct (filter (λ r', row_track_id r' = row_track_id r) rows)
    as [|r1 [|r2 rs]] eqn:E; [|done..].
  assert (r ∈ filter (λ r', row_track_id r' = row_track_id r) rows) as Hin
    by (by apply list_elem_of_filter).
  rewrite E in Hin. by apply elem_of_nil in Hin.
Qed.

Lemma valid_tracks_Ok env rows (index : list Z) :
  (∀ id, id ∈ index → id ∈ row_track_id <$> rows) →
  valid_tracks env rows index = Ok (omap (track_at env rows) index).
Proof.
  induction index as [|id index IH]; intros Hall; [done|].
  cbn [valid_tracks]. csimpl. unfold track_at at 1.
  rewrite IH by (intros id' Hin; apply Hall; by right).
  destruct (path_exists env (get_audio_path id)); [|done].
  rewrite !loc_in_index by (apply Hall; by left). done.
Qed.

Lemma load_all_tracks_omap env rows :
  read_csv env = Ok rows →
  load_all_tracks env = omap (track_at env rows) (row_track_id <$> rows).
Proof.
  intros E. unfold load_all_tracks. rewrite E.
  by rewrite valid_tracks_Ok.
Qed.

Lemma track_at_Some env rows (id : Z) t :
  track_at env rows id = Some t →
  path_exists env (get_audio_path id) = true ∧
  t = {| track_id := id;
         title := loc_entries rows id row_title;
         artist := loc_entries rows id row_artist;
         album := loc_entries rows id row_album;
         file_path := get_audio_path id |}.
Proof.
  unfold track_at. destruct (path_exists env (get_audio_path id)); [|done].
  by intros [= <-].
Qed.

Lemma omap_track_ids env rows (index : list Z) :
  track_id <$> omap (track_at env rows) index
  = filter (λ id, path_exists env (get_audio_path id) = true) index.
Proof.
  induction index as [|id index IH]; [done|]. csimpl.
  destruct (track_at env rows id) as [t|] eqn:Et.
  - apply track_at_Some in Et as [Hex ->].
    rewrite filter_cons_True by done. csimpl. by rewrite IH.
  - rewrite filter_cons_False; [exact IH|].
    unfold track_at in Et. intros Hex. by rewrite Hex in Et.
Qed.

(** *** Repeated labels *)

Lemma filter_label_length rows (k : Z) :
  length (filter (λ id, id = k) (row_track_id <$> rows))
  = length (filter (λ r, row_track_id r = k) rows).
Proof.
  induction rows as [|r rows IH]; [done|]. rewrite fmap_cons.
  destruct (decide (row_track_id r = k)) as [Heq|Hne].
  - rewrite !filter_cons_True by done. simpl. by rewrite IH.
  - by rewrite !filter_cons_False by done.
Qed.

Lemma sublist_once_NoDup (l' l : list Z) :
  l' `sublist_of` l →
  (∀ x, x ∈ l' → (length (filter (λ y, y = x) l) ≤ 1)%nat) →
  NoDup l'.
Proof.
  induction 1 as [|x l1 l2 Hsub IH|x l1 l2 Hsub IH]; intros Hone.
  - constructor.
  - apply NoDup_cons. split.
    + intros Hin. specialize (Hone x ltac:(by left)).
      rewrite filter_cons_True in Hone by done. simpl in Hone.
      assert (x ∈ filter (λ y, y = x) l2) as Hx.
      { apply list_elem_of_filter. split; [done|].
        by eapply elem_of_sublist. }
      destruct (filter (λ y, y = x) l2); [by apply elem_of_nil in Hx|].
      simpl in Hone. lia.
    + apply IH. intros y Hy. specialize (Hone y ltac:(by right)).
      etrans; [|exact Hone]. rewrite filter_cons.
      destruct (decide _); simpl; lia.
  - apply IH. intros y Hy. specialize (Hone y Hy).
    etrans; [|exact Hone]. rewrite filter_cons.
    destruct (decide _); simpl; lia.
Qed.

(** A track with a title that is an entry, not a [Series], has a label
    that is on one line of the table only. *)
Lemma scalar_title_once env rows t :
  read_csv env = Ok rows →
  t ∈ load_all_tracks env →
  is_scalar (title t) = true →
  length (filter (λ r, row_track_id r = track_id t) rows) = 1%nat.
Proof.
  intros E Hin Hsc. rewrite (load_all_tracks_omap env rows E) in Hin.
  apply list_elem_of_omap in Hin as (id & _ & [_ ->]%track_at_Some).
  simpl in *. unfold loc_entries in Hsc.
  by destruct (filter (λ r, row_track_id r = id) rows) as [|r1 [|r2 rs]].
Qed.

(** The tracks whose parameters bind have ids that differ from one
    another. *)
Lemma storable_ids_NoDup env (P : track → Prop) `{!∀ t, Decision (P t)} :
  (∀ t, P t → storable t = true) →
  NoDup (track_id <$> filter P (load_all_tracks env)).
Proof.
  intros HP. destruct (read_csv env) as [rows|e] eqn:E.
  2:{ unfold load_all_tracks. rewrite E. constructor. }
  apply (sublist_once_NoDup _ (row_track_id <$> rows)).
  - etrans; [apply fmap_sublist, sublist_filter|].
    rewrite (load_all_tracks_omap env rows E), omap_track_ids.
    apply sublist_filter.
  - intros x (t & -> & [Ht Hin]%list_elem_of_filter)%list_elem_of_fmap.
    rewrite filter_label_length, (scalar_title_once env rows t E Hin); [done|].
    specialize (HP t Ht). unfold storable in HP.
    by apply andb_true_iff in HP as [[[_ ?]%andb_true_iff _]%andb_true_iff _].
Qed.

(** C6. When the metadata file cannot be read the loader returns the
    empty list, and on an empty list the run prints "No tracks found!" and
    returns at once: no exception leaves it, and the connection holds the
    database it was opened on, both as committed and as seen by the open
    transaction. *)
Theorem unreadable_catalog_no_tracks :
  (∀ (env : environment) (e : exn),
     read_csv env = Raise e → load_all_tracks env = []) ∧
  (∀ (env : environment) (batch_size : Z) (db : database),
     load_all_tracks env = [] →
     process_and_store env batch_size db =
       NoTracks ["Loading tracks metadata..."; "No tracks found!"] (connect db) ∧
     committed (connect db) = db ∧ working (connect db) = db).
Proof.
  split.
  - intros env e H. unfold load_all_tracks. by rewrite H.
  - intros env batch_size db H. unfold process_and_store. by rewrite H.
Qed.

Lemma unreadable_catalog_no_tracks_witness :
  load_all_tracks broken_catalog_env = [] ∧
  process_and_store broken_catalog_env 100 fresh_database =
    NoTracks ["Loading tracks metadata..."; "No tracks found!"]
      (connect fresh_database).
Proof.
  destruct unreadable_catalog_no_tracks as [Hload Hrun].
  pose proof (Hload broken_catalog_env ValueError eq_refl) as Hnil.
  split; [exact Hnil|].
  exact (proj1 (Hrun broken_catalog_env 100 fresh_database Hnil)).
Defined.

End Catalog.

(** ** The Batch Processor *)

Section Batch.

Context (env : environment).

Implicit Types (st : run_state) (t : track) (l : list track) (db : database).

Local Abbreviation step := (process_track env).

(** *** Batches against one pass over all items *)

Lemma process_track_progress st st' t :
  progress st = progress st' →
  progress (step st t) = progress (step st' t).
Proof.
  unfold progress. intros [= Hw Hp He]. unfold process_track.
  rewrite Hw. repeat case_match; simpl; congruence.
Qed.

Lemma fold_progress l st st' :
  progress st = progress st' →
  progress (fold_left step l st) = progress (fold_left step l st').
Proof.
  revert st st'. induction l as [|t l IH]; intros st st' H; simpl; [done|].
  by apply IH, process_track_progress.
Qed.

Lemma process_track_committed st t :
  committed (conn (step st t)) = committed (conn st).
Proof. unfold process_track. by repeat case_match. Qed.

Lemma process_batch_progress (tracks : list track) (batch_size : Z) st (i : Z) :
  progress (process_batch env tracks batch_size st i)
  = progress (fold_left step (py_slice tracks i (i + batch_size)) st) ∧
  committed (conn (process_batch env tracks batch_size st i))
  = working (conn (process_batch env tracks batch_size st i)).
Proof.
  unfold process_batch. split; [|done].
  change (progress (print ?x (commit_state ?y))) with (progress y).
  by apply fold_progress.
Qed.

Lemma py_slice_from {A : Type} (xs : list A) (i n : Z) :
  0 ≤ i → 0 ≤ n →
  py_slice xs i (i + n) = take (Z.to_nat n) (drop (Z.to_nat i) xs).
Proof.
  intros Hi Hn. unfold py_slice.
  destruct (i <? 0) eqn:E1; [lia|]. destruct (i + n <? 0) eqn:E2; [lia|].
  destruct (decide (i ≤ Z.of_nat (length xs))) as [Hle|Hgt].
  - rewrite (Z.min_l i) by done.
    destruct (decide (i + n ≤ Z.of_nat (length xs))) as [Hle2|Hgt2].
    + rewrite Z.min_l by done. f_equal. lia.
    + rewrite Z.min_r by lia.
      rewrite !take_ge; [done|rewrite length_drop; lia..].
  - rewrite !Z.min_r by lia.
    rewrite !drop_ge by lia. by rewrite !take_nil.
Qed.

(** The start indices of the first [m] batches. *)
Lemma batches_progress (tracks : list track) (batch_size : Z) (m : nat) st :
  0 < batch_size →
  let st' := fold_left (process_batch env tracks batch_size)
               ((λ k, 0 + k * batch_size) <$> seqZ 0 (Z.of_nat m)) st in
  progress st' = progress (fold_left step (take (m * Z.to_nat batch_size) tracks) st) ∧
  (m ≠ O → committed (conn st') = working (conn st')).
Proof.
  intros Hb. induction m as [|m [IH _]]; [done|].
  rewrite seqZ_S, fmap_app, fold_left_app. simpl fmap. simpl fold_left.
  set (prev := fold_left (process_batch env tracks batch_size) _ st) in *.
  destruct (process_batch_progress tracks batch_size prev
              (0 + (0 + Z.of_nat m) * batch_size)) as [Hp Hc].
  split; [|done].
  rewrite Hp, (fold_progress _ _ _ IH), <-fold_left_app.
  rewrite py_slice_from by lia.
  replace (0 + (0 + Z.of_nat m) * batch_size) with (Z.of_nat m * batch_size) by lia.
  rewrite Z2Nat.inj_mul, Nat2Z.id by lia.
  rewrite take_take_drop. do 3 f_equal. lia.
Qed.

Lemma py_range_batches (n batch_size : Z) :
  0 < batch_size → 0 ≤ n →
  py_range 0 n batch_size =
    Ok ((λ k, 0 + k * batch_size)
          <$> seqZ 0 (Z.of_nat (Z.to_nat ((n + batch_size - 1) / batch_size)))) ∧
  n ≤ (n + batch_size - 1) / batch_size * batch_size.
Proof.
  intros Hb Hn. unfold py_range.
  destruct (batch_size =? 0) eqn:E0; [lia|].
  destruct (0 <? batch_size) eqn:E1; [|lia].
  pose proof (Z.div_mod (n + batch_size - 1) batch_size ltac:(lia)) as Hdm.
  pose proof (Z.mod_pos_bound (n + batch_size - 1) batch_size Hb) as Hmod.
  assert (0 ≤ (n + batch_size - 1) / batch_size) as Hq
    by (apply Z.div_pos; lia).
  split; [|nia].
  do 3 f_equal. rewrite Z.sub_0_r. lia.
Qed.

(** With a positive batch size the run goes through every item once, in
    order, and ends with everything committed. *)
Lemma process_and_store_completed (batch_size : Z) db :
  0 < batch_size →
  load_all_tracks env ≠ [] →
  ∃ out,
    process_and_store env batch_size db =
      Completed out (working (conn (process_all env db)))
        (processed_count (process_all env db))
        (error_count (process_all env db)) ∧
    "Successfully processed: "
      +:+ pretty (processed_count (process_all env db)) +:+ " tracks" ∈ out ∧
    "Errors: " +:+ pretty (error_count (process_all env db)) +:+ " tracks" ∈ out.
Proof.
  intros Hb Hne. unfold process_and_store, process_all.
  destruct (load_all_tracks env) as [|t0 l0] eqn:El; [done|].
  set (tracks := t0 :: l0) in *.
  set (n := Z.of_nat (length tracks)).
  assert (1 ≤ n) as Hn1 by (unfold n, tracks; simpl; lia).
  destruct (py_range_batches n batch_size Hb ltac:(lia)) as [-> Hcover].
  set (m := Z.to_nat ((n + batch_size - 1) / batch_size)) in *.
  set (st0 := {| conn := connect db; processed_count := 0; error_count := 0;
                 stdout := _ |}).
  destruct (batches_progress tracks batch_size m st0 Hb) as [Hp Hc].
  assert (m ≠ O) as Hm.
  { unfold m. intros H0.
    assert ((n + batch_size - 1) / batch_size ≤ 0) by lia. nia. }
  specialize (Hc Hm).
  rewrite take_ge in Hp.
  2:{ assert (0 ≤ (n + batch_size - 1) / batch_size) by (apply Z.div_pos; lia).
      unfold m, n in *. nia. }
  rewrite (fold_progress tracks st0 (start_state db [])) in Hp by done.
  set (final := fold_left (process_batch env tracks batch_size) _ st0) in *.
  injection Hp as Hw Hpc Hec.
  eexists. rewrite Hc, Hw, Hpc, Hec. split; [reflexivity|].
  split; apply elem_of_app; right; set_solver.
Qed.

(** *** One item *)

Lemma float_features_scored t :
  float_features env t = true ↔ is_Some (scored env t).
Proof.
  unfold float_features, scored.
  destruct (extract_mood_features env (file_path t)) as [fs|];
    [|split; [done|by intros []]].
  unfold used_keys. cbn [forallb]. rewrite !andb_true_iff, !numeric_at_true.
  split.
  - intros ([x Hx] & [y Hy] & [z Hz] & [u Hu] & _).
    eexists. by apply analyze_mood_floats.
  - intros [m (x & y & z & u & Hx & Hy & Hz & Hu & _)%analyze_mood_Some_inv].
    repeat split; by eexists.
Qed.

(** What one item does, by the stage at which it stops. *)
Lemma process_track_cases st t :
  match scored env t, songs (working (conn st)), song_params t with
  | Some m, Some rows, Ok row =>
      let db1 := {| songs := Some (upsert_song rows row);
                    mood_analysis := mood_analysis (working (conn st));
                    mood_seq := mood_seq (working (conn st)) |} in
      match mood_analysis (working (conn st)) with
      | Some mrows =>
          match new_mood_id mrows (mood_seq (working (conn st))) with
          | Ok id =>
              step st t = count_processed (set_working
                {| songs := Some (upsert_song rows row);
                   mood_analysis := Some (mrows ++ [mood_row_of id (track_id t) m]);
                   mood_seq := id |} st)
          | Raise _ => step st t = count_error (set_working db1 st)
          end
      | None => step st t = count_error (set_working db1 st)
      end
  | _, _, _ => step st t = count_error st
  end.
Proof.
  unfold scored, process_track.
  destruct (extract_mood_features env (file_path t)) as [fs|]; [|done].
  destruct (analyze_mood fs) as [m|]; [|done].
  unfold insert_or_replace_song.
  destruct (songs (working (conn st))) as [rows|]; [|done].
  destruct (song_params t) as [row|e] eqn:Ep; [|done]. simpl.
  apply song_params_Ok in Ep as [Hid _].
  unfold insert_mood_analysis, bind_int. simpl. rewrite Hid.
  destruct (mood_analysis (working (conn st))) as [mrows|]; [|done]. simpl.
  by destruct (new_mood_id mrows (mood_seq (working (conn st)))).
Qed.

Lemma process_track_stops st t :
  passes_every_stage env t = false → step st t = count_error st.
Proof.
  unfold passes_every_stage. intros H. pose proof (process_track_cases st t) as Hc.
  destruct (scored env t) as [m|] eqn:Esc; [|done].
  destruct (songs (working (conn st))) as [rows|]; [|done].
  destruct (song_params t) as [row|e] eqn:Ep; [|done].
  assert (float_features env t = true) as Hf
    by (apply float_features_scored; by rewrite Esc).
  assert (storable t = true) as Hs by (apply song_params_storable; by eexists).
  by rewrite Hf, Hs in H.
Qed.

Lemma process_track_passes st t (bound : Z) :
  has_tables (working (conn st)) →
  keys_below bound (working (conn st)) → bound < max_rowid →
  passes_every_stage env t = true →
  ∃ (m : moods) (row : song_row) (id : Z),
    scored env t = Some m ∧ song_params t = Ok row ∧
    song_rows (working (conn (step st t)))
      = upsert_song (song_rows (working (conn st))) row ∧
    mood_rows (working (conn (step st t)))
      = mood_rows (working (conn st)) ++ [mood_row_of id (track_id t) m] ∧
    processed_count (step st t) = processed_count st + 1 ∧
    error_count (step st t) = error_count st ∧
    has_tables (working (conn (step st t))) ∧
    keys_below (bound + 1) (working (conn (step st t))).
Proof.
  intros [[rows Hs] [mrows Hm]] (H0 & Hseq & Hall) Hb
    [Hf Hst]%andb_true_iff.
  apply float_features_scored in Hf as [m Hsc].
  apply song_params_storable in Hst as [row Hp].
  pose proof (process_track_cases st t) as Hc.
  rewrite Hsc, Hs, Hp, Hm in Hc.
  unfold mood_rows in Hall. rewrite Hm in Hall. simpl in Hall.
  destruct (new_mood_id_room mrows _ bound H0 Hb Hseq Hall) as (id & Hid & Hle).
  rewrite Hid in Hc. rewrite Hc.
  exists m, row, id. unfold song_rows, mood_rows, has_tables, keys_below.
  simpl. rewrite Hs, Hm. simpl.
  split; [done|]. split; [done|]. split; [done|]. split; [done|].
  split; [done|]. split; [done|]. split; [split; by eexists|].
  split; [lia|]. split; [done|].
  apply Forall_app. split; [|by constructor].
  eapply Forall_impl; [exact Hall|]. simpl. intros. lia.
Qed.

(** *** A pass over a list of items *)

Lemma upsert_songs_cons (rows : list song_row) t (ts : list track) :
  upsert_songs rows (t :: ts)
  = upsert_songs (match song_params t with
                  | Ok row => upsert_song rows row
                  | Raise _ => rows
                  end) ts.
Proof. done. Qed.

(** With both tables and enough free keys, the items that pass every
    stage are the ones that are stored, in order. *)
Lemma fold_tracks_passing l st (bound : Z) :
  has_tables (working (conn st)) →
  keys_below bound (working (conn st)) →
  bound + Z.of_nat (length l) ≤ max_rowid →
  ∃ new : list mood_row,
    mood_rows (working (conn (fold_left step l st)))
      = mood_rows (working (conn st)) ++ new ∧
    Forall2 (λ r t, ∃ m, scored env t = Some m
                         ∧ r = mood_row_of (mood_id r) (track_id t) m)
      new (filter (λ t, passes_every_stage env t = true) l) ∧
    song_rows (working (conn (fold_left step l st)))
      = upsert_songs (song_rows (working (conn st)))
          (filter (λ t, passes_every_stage env t = true) l) ∧
    processed_count (fold_left step l st)
      = processed_count st + Z.of_nat (length new) ∧
    error_count (fold_left step l st)
      = error_count st + Z.of_nat (length l) - Z.of_nat (length new).
Proof.
  revert st bound. induction l as [|t l IH]; intros st bound Ht Hk Hb.
  { exists []. rewrite app_nil_r. simpl.
    split; [done|]. split; [constructor|]. split; [done|]. lia. }
  simpl fold_left. simpl length in Hb.
  destruct (passes_every_stage env t) eqn:Ep.
  - destruct (process_track_passes st t bound Ht Hk ltac:(lia) Ep)
      as (m & row & id & Hsc & Hp & Hs & Hm & Hpc & Hec & Ht' & Hk').
    destruct (IH (step st t) (bound + 1) Ht' Hk' ltac:(lia))
      as (new & Hrows & Hall & Hsongs & Hpc' & Hec').
    exists (mood_row_of id (track_id t) m :: new).
    rewrite filter_cons_True by done.
    rewrite Hrows, Hm, <-(assoc_L (++)), Hsongs, Hs, Hpc', Hec', Hpc, Hec.
    rewrite upsert_songs_cons, Hp. simpl length.
    split; [done|]. split; [constructor; [by exists m|done]|].
    split; [done|]. lia.
  - rewrite (process_track_stops st t Ep).
    destruct (IH (count_error st) bound Ht Hk ltac:(lia))
      as (new & Hrows & Hall & Hsongs & Hpc' & Hec').
    exists new. rewrite filter_cons_False by (by rewrite Ep).
    rewrite Hpc', Hec'. simpl.
    split; [done|]. split; [done|]. split; [done|]. lia.
Qed.

(** *** The songs table through a pass *)

Lemma upsert_song_filter_key (rows : list song_row) (row : song_row) (k : Z) :
  filter (λ r, song_track_id r = k) (upsert_song rows row)
  = if decide (song_track_id row = k) then [row]
    else filter (λ r, song_track_id r = k) rows.
Proof.
  unfold upsert_song. rewrite filter_app.
  destruct (decide (song_track_id row = k)) as [<-|Hne].
  - rewrite filter_cons_True, filter_nil by done.
    rewrite (elem_of_nil_inv (filter _ (filter _ rows))); [done|].
    intros r [Heq [Hn _]%list_elem_of_filter]%list_elem_of_filter. done.
  - rewrite filter_cons_False, filter_nil, app_nil_r by done.
    rewrite list_filter_filter. apply list_filter_iff. intros r.
    split; [by intros [? _]|]. intros Hk. split; [done|congruence].
Qed.

Lemma upsert_songs_filter_key_notin (rows : list song_row) (ts : list track) (k : Z) :
  k ∉ track_id <$> ts →
  filter (λ r, song_track_id r = k) (upsert_songs rows ts)
  = filter (λ r, song_track_id r = k) rows.
Proof.
  revert rows. induction ts as [|t ts IH]; intros rows Hk; [done|].
  rewrite fmap_cons in Hk. apply not_elem_of_cons in Hk as [Hne Hk].
  rewrite upsert_songs_cons, IH by done.
  destruct (song_params t) as [row|e] eqn:Ep; [|done].
  rewrite upsert_song_filter_key.
  destruct (decide _) as [Heq|_]; [|done].
  rewrite (song_params_track_id t row Ep) in Heq. congruence.
Qed.

Lemma upsert_songs_filter_key_in (rows : list song_row) (ts : list track) t row :
  NoDup (track_id <$> ts) → t ∈ ts → song_params t = Ok row →
  filter (λ r, song_track_id r = track_id t) (upsert_songs rows ts) = [row].
Proof.
  revert rows. induction ts as [|t' ts IH]; intros rows Hnd Hin Hp;
    [by apply elem_of_nil in Hin|].
  rewrite fmap_cons in Hnd. apply NoDup_cons in Hnd as [Hnotin Hnd].
  rewrite upsert_songs_cons.
  apply elem_of_cons in Hin as [->|Hin]; [|by apply IH].
  rewrite upsert_songs_filter_key_notin by done.
  rewrite Hp, upsert_song_filter_key.
  by rewrite decide_True by (by apply song_params_track_id).
Qed.

(** The songs table takes the row of every item that passes scoring and
    whose parameters bind, whatever happens to its mood_analysis row. *)
Lemma fold_tracks_songs l st (rows : list song_row) :
  songs (working (conn st)) = Some rows →
  songs (working (conn (fold_left step l st)))
  = Some (upsert_songs rows (filter (λ t, passes_every_stage env t = true) l)).
Proof.
  revert st rows. induction l as [|t l IH]; intros st rows Hs; [done|].
  simpl fold_left.
  destruct (passes_every_stage env t) eqn:Ep.
  - rewrite filter_cons_True by done. rewrite upsert_songs_cons.
    pose proof (process_track_cases st t) as H.
    apply andb_true_iff in Ep as [Hf Hst].
    apply float_features_scored in Hf as [m Hsc].
    apply song_params_storable in Hst as [row Hp].
    rewrite Hsc, Hs, Hp in H. rewrite Hp. simpl in H.
    destruct (mood_analysis (working (conn st))) as [mrows|];
      [destruct (new_mood_id mrows _)|]; rewrite H; by apply IH.
  - rewrite filter_cons_False by (by rewrite Ep).
    rewrite (process_track_stops st t Ep). by apply IH.
Qed.

(** *** Exactly one failing item *)

Lemma filter_all {A : Type} (P : A → Prop) `{!∀ x, Decision (P x)} (xs : list A) :
  Forall P xs →
  filter P xs = xs ∧ filter (λ x, ¬ P x) xs = [].
Proof.
  induction 1 as [|x xs Hx _ [IH1 IH2]]; [done|].
  rewrite filter_cons_True, IH1 by done.
  rewrite filter_cons_False by (intros Hn; by apply Hn). done.
Qed.

Lemma count_one_failure {A : Type} (P : A → Prop) `{!∀ x, Decision (P x)}
    (xs : list A) (k : nat) (x : A) :
  xs !! k = Some x →
  ¬ P x →
  (∀ j y, j ≠ k → xs !! j = Some y → P y) →
  S (length (filter P xs)) = length xs ∧
  length (filter (λ y, ¬ P y) xs) = 1%nat.
Proof.
  intros Hk Hx Hothers.
  assert (Forall P (take k xs)) as Hl.
  { apply Forall_forall. intros y [j Hj]%list_elem_of_lookup.
    apply lookup_take_Some in Hj as [Hj Hlt]. apply (Hothers j); [lia|done]. }
  assert (Forall P (drop (S k) xs)) as Hr.
  { apply Forall_forall. intros y [j Hj]%list_elem_of_lookup.
    rewrite lookup_drop in Hj. apply (Hothers (S k + j)%nat); [lia|done]. }
  destruct (filter_all P _ Hl) as [L1 L2].
  destruct (filter_all P _ Hr) as [R1 R2].
  rewrite <-(take_drop_middle xs k x Hk) at 1 2 3.
  rewrite !filter_app, filter_cons_False, L1, R1 by done.
  rewrite (filter_cons_True (λ y, ¬ P y)), L2, R2 by done.
  rewrite !length_app. simpl. split; lia.
Qed.

(** C5. With a positive batch size, both tables in place and keys to
    spare, and a catalog of N items of which exactly one fails at the
    scoring stage while every other item passes every stage (its
    features are floats and its parameters bind), the run ends normally
    with [processed_count = N - 1] and [error_count = 1], and the
    committed database holds a new mood_analysis row and exactly one
    songs row, its own, for each of the N - 1 other items. *)
Theorem one_scoring_failure_is_isolated
    (batch_size : Z) db (k : nat) (tk : track) (fk : features) :
  0 < batch_size →
  has_tables db →
  keys_below (max_rowid - Z.of_nat (length (load_all_tracks env))) db →
  load_all_tracks env !! k = Some tk →
  extract_mood_features env (file_path tk) = Some fk →
  analyze_mood fk = None →
  (∀ j t, j ≠ k → load_all_tracks env !! j = Some t →
          passes_every_stage env t = true) →
  ∃ out db',
    process_and_store env batch_size db =
      Completed out db' (Z.of_nat (length (load_all_tracks env)) - 1) 1 ∧
    "Successfully processed: "
      +:+ pretty (Z.of_nat (length (load_all_tracks env)) - 1) +:+ " tracks" ∈ out ∧
    "Errors: " +:+ pretty 1 +:+ " tracks" ∈ out ∧
    S (length (mood_rows db')) =
      (length (mood_rows db) + length (load_all_tracks env))%nat ∧
    (∀ j t, j ≠ k → load_all_tracks env !! j = Some t →
       ∃ (m : moods) (row : song_row),
         scored env t = Some m ∧ song_params t = Ok row ∧
         (∃ id : Z, mood_row_of id (track_id t) m ∈ mood_rows db') ∧
         filter (λ r, song_track_id r = track_id t) (song_rows db') = [row]).
Proof.
  intros Hb Ht Hkeys Hk Hex Han Hothers.
  assert (load_all_tracks env ≠ []) as Hne by (intros E; by rewrite E in Hk).
  destruct (process_and_store_completed batch_size db Hb Hne)
    as (out & Hrun & Hout1 & Hout2).
  assert (scored env tk = None) as Hsk by (unfold scored; by rewrite Hex).
  assert (passes_every_stage env tk ≠ true) as Hfail.
  { intros [Hf _]%andb_true_iff. apply float_features_scored in Hf.
    rewrite Hsk in Hf. by destruct Hf. }
  destruct (count_one_failure (λ t, passes_every_stage env t = true)
              (load_all_tracks env) k tk Hk Hfail Hothers) as [Hc1 _].
  unfold process_all in *.
  set (st0 := start_state db []) in *.
  destruct (fold_tracks_passing (load_all_tracks env) st0
              (max_rowid - Z.of_nat (length (load_all_tracks env))) Ht Hkeys)
    as (new & Hrows & Hall & Hsongs & Hp & He); [lia|].
  set (final := fold_left step (load_all_tracks env) st0) in *.
  set (passing := filter (λ t, passes_every_stage env t = true)
                    (load_all_tracks env)) in *.
  pose proof (Forall2_length _ _ _ Hall) as Hlen.
  assert (processed_count final = Z.of_nat (length (load_all_tracks env)) - 1)
    as Hp' by (rewrite Hp; simpl; lia).
  assert (error_count final = 1) as He' by (rewrite He; simpl; lia).
  exists out, (working (conn final)).
  rewrite Hp', He' in Hrun. rewrite Hp' in Hout1. rewrite He' in Hout2.
  split; [done|]. split; [done|]. split; [done|].
  split; [rewrite Hrows, length_app; simpl; lia|].
  intros j t Hj Hjt.
  pose proof (Hothers j t Hj Hjt) as Hpass.
  assert (t ∈ passing) as Hin.
  { apply list_elem_of_filter. split; [done|].
    apply list_elem_of_lookup. by exists j. }
  apply andb_true_iff in Hpass as [Hf Hst].
  apply float_features_scored in Hf as [m Hsc].
  apply song_params_storable in Hst as [row Hpr].
  exists m, row. split; [done|]. split; [done|]. split.
  - apply list_elem_of_lookup in Hin as [i Hi].
    destruct (Forall2_lookup_r _ _ _ _ _ Hall Hi) as (r & Hr & m' & Hsc' & Heq).
    assert (m' = m) as -> by congruence.
    exists (mood_id r). rewrite Hrows, <-Heq.
    apply elem_of_app. right. apply list_elem_of_lookup. by exists i.
  - rewrite Hsongs. apply upsert_songs_filter_key_in; [|done..].
    apply storable_ids_NoDup. by intros t' [_ ?]%andb_true_iff.
Qed.

End Batch.

Lemma one_scoring_failure_is_isolated_witness :
  ∃ out db',
    process_and_store example_env 2 fresh_database = Completed out db' (3 - 1) 1 ∧
    S (length (mood_rows db')) = (0 + 3)%nat.
Proof.
  destruct (one_scoring_failure_is_isolated example_env 2 fresh_database 1
              example_track_5 (delete "tempo" example_features))
    as (out & db' & Hrun & _ & _ & Hlen & _).
  - lia.
  - split; by eexists.
  - split; [by vm_compute|]. split; [by vm_compute|constructor].
  - vm_compute. reflexivity.
  - reflexivity.
  - vm_compute. reflexivity.
  - intros j t Hj Hjt.
    destruct j as [|[|[|j]]]; [|done| |];
      vm_compute in Hjt; [injection Hjt as <-..|discriminate];
      vm_compute; reflexivity.
  - exists out, db'. split; [exact Hrun|exact Hlen].
Defined.

(** ** Set-up *)

Section Setup.

Implicit Types (w : world) (db_name user_input : string).

Lemma to_lower_y (c : ascii) :
  to_lower c = "y"%char ↔ c = "y"%char ∨ c = "Y"%char.
Proof.
  split.
  - destruct c as [[] [] [] [] [] [] [] []]; vm_compute; intros H;
      first [discriminate H | by left | by right].
  - by intros [-> | ->].
Qed.

(** The comparison of line 11 lets exactly the answers "y" and "Y"
    through. *)
Lemma lower_y user_input :
  lower user_input = "y" ↔ user_input = "y" ∨ user_input = "Y".
Proof.
  split.
  - destruct user_input as [|c [|c' rest]]; simpl; try discriminate.
    intros [= [-> | ->]%to_lower_y]; [by left | by right].
  - by intros [-> | ->].
Qed.

(** C10. When the database file exists and the answer is anything but
    "y" or "Y", [create_database] returns [False] and leaves every file as
    it was; the check of lines 8-14 deletes the file exactly when the
    answer is "y" or "Y". *)
Theorem create_database_cancel_keeps_file db_name user_input w (d : database) :
  files w !! db_name = Some d →
  (user_input ≠ "y" → user_input ≠ "Y" →
     (create_database db_name user_input w).1 = Ok false ∧
     files (create_database db_name user_input w).2 = files w) ∧
  ((∃ w', check_existing db_name user_input w = inr w'
          ∧ files w' !! db_name = None)
   ↔ user_input = "y" ∨ user_input = "Y").
Proof.
  intros Hex. rewrite <-lower_y.
  unfold create_database, check_existing. rewrite Hex.
  destruct (String.eqb (lower user_input) "y") eqn:E; simpl.
  - apply String.eqb_eq in E. split.
    + intros H1 H2. apply lower_y in E as [?|?]; done.
    + split; [done|]. intros _. eexists. split; [done|]. simpl.
      apply lookup_delete_eq.
  - apply String.eqb_neq in E. split; [done|].
    split; [by intros (w' & ? & _)|done].
Qed.

Lemma create_database_cancel_keeps_file_witness :
  (create_database "music_mood.db" "n" example_world).1 = Ok false ∧
  files (create_database "music_mood.db" "n" example_world).2
    = files example_world.
Proof.
  apply (proj1 (create_database_cancel_keeps_file "music_mood.db" "n"
                  example_world fresh_database eq_refl)); discriminate.
Defined.

End Setup.

(* ===================================================================== *)
(** * Part III: further properties of the code                            *)
(* ===================================================================== *)

(** ** Signs, NaNs and mantissas of the float operations *)

Section FloatSigns.

Lemma leb_0_nonneg (x : float) : Float64.leb f0 x = nonneg x.
Proof. by destruct x as [s|[]| |[] m e]. Qed.

Lemma binary_round_aux_nonneg (prec emax mx ex : Z) (lx : location) :
  0 ≤ mx → nonneg (binary_round_aux prec emax false mx ex lx) = true.
Proof.
  intros Hm. unfold binary_round_aux.
  pose proof (shr_fexp_nonneg prec emax mx ex lx Hm) as H1.
  destruct (shr_fexp prec emax mx ex lx) as [mrs1 e1]. simpl in H1.
  pose proof (shr_fexp_nonneg prec emax
    (round_nearest_even (shr_m mrs1) (loc_of_shr_record mrs1)) e1 loc_Exact
    (round_nearest_even_nonneg _ _ H1)) as H2.
  destruct (shr_fexp prec emax _ e1 loc_Exact) as [mrs2 e2]. simpl in H2.
  destruct (shr_m mrs2) as [|q|q]; [done| |lia].
  by destruct (e2 <=? emax - prec).
Qed.

Lemma binary_normalize_nonneg (prec emax m e : Z) :
  0 ≤ m → nonneg (binary_normalize prec emax m e false) = true.
Proof.
  intros Hm. destruct m as [|q|q]; [done| |lia]. simpl.
  unfold binary_round. destruct (shl_align _ _ _) as [mz ez].
  by apply binary_round_aux_nonneg.
Qed.

(** Division by a positive constant of the source keeps the sign. *)
Lemma div_nonneg (x : float) (m : positive) (e : Z) :
  nonneg x = true → nonneg (Float64.div x (S754_finite false m e)) = true.
Proof.
  destruct x as [s|[]| |[] mx ex]; try done. intros _.
  unfold Float64.div, SFdiv, SFdiv_core_binary.
  set (s := _ - _ - _). set (m' := match s with Z0 => _ | Z.pos _ => _ | Z.neg _ => _ end).
  assert (0 ≤ m') as Hm'.
  { unfold m'. destruct s; [lia| |lia]. apply Z.shiftl_nonneg. lia. }
  pose proof (Z.div_pos m' (Z.pos m) Hm' ltac:(lia)) as Hq.
  unfold Z.div in Hq. destruct (Z.div_eucl m' (Z.pos m)) as [q r].
  by apply binary_round_aux_nonneg.
Qed.

Lemma mul_nonneg_const (x : float) (m : positive) (e : Z) :
  nonneg x = true → nonneg (Float64.mul x (S754_finite false m e)) = true.
Proof.
  destruct x as [s|[]| |[] mx ex]; try done. intros _.
  by apply binary_round_aux_nonneg.
Qed.

(** A product of two floats that are not negative is not negative, or it
    is the NaN of zero times infinity. *)
Lemma mul_nonneg (x y : float) :
  nonneg x = true → nonneg y = true →
  nonneg (Float64.mul x y) = true ∨ Float64.mul x y = S754_nan.
Proof.
  destruct x as [sx|[]| |[] mx ex]; try done;
  destruct y as [sy|[]| |[] my ey]; try done; intros _ _;
    try (by right); left; try done.
  by apply binary_round_aux_nonneg.
Qed.

Lemma add_nonneg (x y : float) :
  nonneg x = true → nonneg y = true → nonneg (Float64.add x y) = true.
Proof.
  destruct x as [sx|[]| |[] mx ex]; try done;
  destruct y as [sy|[]| |[] my ey]; try done; intros _ _.
  - by destruct sx, sy.
  - unfold Float64.add, SFadd. apply binary_normalize_nonneg. simpl. lia.
Qed.

Lemma py_min_nonneg (a b : float) :
  nonneg a = true → nonneg b = true → nonneg (Float64.py_min a b) = true.
Proof. intros Ha Hb. unfold Float64.py_min. by destruct (Float64.ltb b a). Qed.

Lemma clamp01_nonneg (x : float) :
  nonneg x = true ∨ x = S754_nan → nonneg (clamp01 x) = true.
Proof.
  intros [Hx | ->]; [|done]. by apply py_min_nonneg.
Qed.

(** *** Mantissa size after rounding *)

Lemma shr_1_digits (mrs : shr_record) :
  0 ≤ shr_m mrs →
  Zdigits2 (shr_m (shr_1 mrs)) = Z.max 0 (Zdigits2 (shr_m mrs) - 1).
Proof.
  destruct mrs as [[|[p|p|]|[p|p|]] r s]; simpl; intros H; try lia.
Qed.

Lemma iter_shr_1_digits (p : positive) (mrs : shr_record) :
  0 ≤ shr_m mrs →
  Zdigits2 (shr_m (SpecFloat.iter_pos shr_1 p mrs))
  = Z.max 0 (Zdigits2 (shr_m mrs) - Z.pos p).
Proof.
  revert mrs. induction p as [p IH|p IH|]; intros mrs H; simpl.
  - rewrite IH by (by apply iter_shr_1_nonneg, shr_1_nonneg).
    rewrite IH by (by apply shr_1_nonneg).
    rewrite shr_1_digits by done. lia.
  - rewrite IH by (by apply iter_shr_1_nonneg).
    rewrite IH by done. lia.
  - by apply shr_1_digits.
Qed.

Lemma shr_fexp_digits (prec emax m e : Z) (l : location) :
  0 ≤ prec → 0 ≤ m →
  Zdigits2 (shr_m (fst (shr_fexp prec emax m e l))) ≤ prec.
Proof.
  intros Hp Hm. unfold shr_fexp, shr, fexp.
  assert (shr_m (shr_record_of_loc m l) = m) as E by (by destruct l as [|[]]).
  destruct (Z.max (Zdigits2 m + e - prec) (emin prec emax) - e) as [|p|p] eqn:En;
    simpl.
  - rewrite E. lia.
  - rewrite iter_shr_1_digits, E by (rewrite E; lia). lia.
  - rewrite E. lia.
Qed.

Lemma binary_round_aux_bounded (sx : bool) (mx ex : Z) (lx : location) :
  0 ≤ mx →
  mantissa_bounded (binary_round_aux Float64.prec Float64.emax sx mx ex lx) = true.
Proof.
  intros Hm. unfold binary_round_aux.
  pose proof (shr_fexp_nonneg Float64.prec Float64.emax mx ex lx Hm) as H1.
  destruct (shr_fexp Float64.prec Float64.emax mx ex lx) as [mrs1 e1]. simpl in H1.
  pose proof (shr_fexp_digits Float64.prec Float64.emax
    (round_nearest_even (shr_m mrs1) (loc_of_shr_record mrs1)) e1 loc_Exact
    ltac:(done) (round_nearest_even_nonneg _ _ H1)) as H2.
  destruct (shr_fexp Float64.prec Float64.emax _ e1 loc_Exact) as [mrs2 e2].
  simpl in H2.
  destruct (shr_m mrs2) as [|q|q]; [done| |done].
  destruct (e2 <=? Float64.emax - Float64.prec); [|done].
  simpl in *. by apply Z.leb_le.
Qed.

(** A quotient by a finite constant has a mantissa of at most 53 bits,
    whatever is divided. *)
Lemma div_bounded (x : float) (s : bool) (m : positive) (e : Z) :
  mantissa_bounded (Float64.div x (S754_finite s m e)) = true.
Proof.
  destruct x as [sx|sx| |sx mx ex]; try done.
  unfold Float64.div, SFdiv, SFdiv_core_binary.
  set (sh := _ - _ - _).
  set (m' := match sh with Z0 => _ | Z.pos _ => _ | Z.neg _ => _ end).
  assert (0 ≤ m') as Hm'.
  { unfold m'. destruct sh; [lia| |lia]. apply Z.shiftl_nonneg. lia. }
  pose proof (Z.div_pos m' (Z.pos m) Hm' ltac:(lia)) as Hq.
  unfold Z.div in Hq. destruct (Z.div_eucl m' (Z.pos m)) as [q r].
  by apply binary_round_aux_bounded.
Qed.

Lemma digits2_pos_bound (m : positive) : Z.pos m < 2 ^ Z.pos (digits2_pos m).
Proof.
  induction m as [m IH|m IH|]; simpl; [| |done];
    rewrite Pos2Z.inj_succ, Z.pow_succ_r by lia; lia.
Qed.

Lemma iter_xO_lower (p d : positive) : (p~0 <= Pos.iter xO p d)%positive.
Proof.
  induction d as [|d IH] using Pos.peano_ind; [simpl; lia|].
  rewrite Pos.iter_succ. lia.
Qed.

(** [1.0 - x] is not negative when [x] is [1.0] or compares below it and
    has a mantissa of at most 53 bits. *)
Lemma sub_1_nonneg (x : float) :
  mantissa_bounded x = true →
  x = f1 ∨ Float64.ltb x f1 = true →
  nonneg (Float64.sub f1 x) = true.
Proof.
  intros Hb [-> | Hlt]; [done|].
  change f1 with (S754_finite false 4503599627370496 (-52)) in *.
  destruct x as [s|[]| |[] m e]; try done.
  - unfold Float64.sub, SFsub. apply binary_normalize_nonneg. simpl. lia.
  - unfold Float64.sub, SFsub. apply binary_normalize_nonneg.
    unfold Float64.ltb, SFltb, SFcompare in Hlt.
    simpl in Hb. apply Z.leb_le in Hb.
    pose proof (digits2_pos_bound m) as Hm.
    assert (Z.pos m < 9007199254740992) as Hm53.
    { change 9007199254740992 with (2 ^ 53).
      eapply Z.lt_le_trans; [exact Hm|]. apply Z.pow_le_mono_r; [lia|exact Hb]. }
    clear Hm Hb.
    destruct (e ?= -52) eqn:Ee; try discriminate.
    + apply Z.compare_eq in Ee. subst e.
      destruct (PosDef.Pos.compare_cont Eq m 4503599627370496) eqn:Em;
        try discriminate.
      assert (Z.pos m < 4503599627370496) as Hlt'
        by (apply Pos2Z.pos_lt_pos; exact Em).
      clear Em Hlt.
      rewrite Z.min_id. unfold shl_align. rewrite Z.sub_diag.
      unfold cond_Zopp, fst. lia.
    + change (e < -52) in Ee.
      rewrite Z.min_r by lia. unfold shl_align.
      rewrite Z.sub_diag.
      destruct (e - -52) as [|d|d] eqn:Ed; try lia.
      pose proof (Pos2Z.pos_le_pos _ _ (iter_xO_lower 4503599627370496 d)) as Hd.
      change (Z.pos 4503599627370496~0) with 9007199254740992 in Hd.
      clear Hlt Ed.
      unfold cond_Zopp, fst. lia.
Qed.

End FloatSigns.

(** ** The Mood Scorer, further *)

Section ScorerFurther.

Implicit Types (fs : features) (m : moods).

Lemma leb_1_1 : Float64.leb f1 f1 = true.
Proof. reflexivity. Qed.

(** X1. No field of a returned mood vector is a NaN, whatever floats come
    in (NaNs and infinities included), and angry is at most 1.0. *)
Theorem mood_vector_has_no_nan fs m :
  analyze_mood fs = Some m →
  Float64.is_nan (happy_intensity m) = false ∧
  Float64.is_nan (sad_intensity m) = false ∧
  Float64.is_nan (energetic_intensity m) = false ∧
  Float64.is_nan (calm_intensity m) = false ∧
  Float64.is_nan (angry_intensity m) = false ∧
  Float64.leb (angry_intensity m) f1 = true.
Proof.
  intros (t & r & c & z & _ & _ & _ & _ & ->)%analyze_mood_Some_inv. simpl.
  repeat split;
    first [ apply clamp01_not_nan
          | apply sub_1_not_nan, clamp01_not_nan
          | apply clamp01_le_1 ].
Qed.

Lemma mood_vector_has_no_nan_witness :
  ∃ m, analyze_mood nan_tempo_features = Some m ∧
       Float64.is_nan (happy_intensity m) = false ∧
       Float64.is_nan (calm_intensity m) = false.
Proof.
  assert (∃ m, analyze_mood nan_tempo_features = Some m) as [m Hm]
    by (eexists; vm_compute; reflexivity).
  exists m. split; [exact Hm|].
  destruct (mood_vector_has_no_nan nan_tempo_features m Hm)
    as (H1 & _ & _ & H4 & _).
  by split.
Defined.

Lemma add_nan_l (y : float) : Float64.add S754_nan y = S754_nan.
Proof. by destruct y. Qed.

Lemma add_nan_r (x : float) : Float64.add x S754_nan = S754_nan.
Proof. by destruct x. Qed.

Lemma mul_nan_l (y : float) : Float64.mul S754_nan y = S754_nan.
Proof. by destruct y. Qed.

Lemma mul_nan_r (x : float) : Float64.mul x S754_nan = S754_nan.
Proof. by destruct x. Qed.

(** X2. A NaN among the inputs is not reported: every field that depends
    on it is scored as if the input were as high as can be. A NaN tempo
    gives energetic = happy = 1.0 and calm = sad = 0.0; a NaN rms_energy
    gives energetic = angry = 1.0; a NaN spectral_centroid gives
    happy = 1.0; a NaN zero_crossing_rate gives angry = 1.0. *)
Theorem nan_input_scores_as_maximum fs m :
  analyze_mood fs = Some m →
  (fs !! "tempo" = Some (PyFloat S754_nan) →
     energetic_intensity m = f1 ∧ happy_intensity m = f1 ∧
     calm_intensity m = f0 ∧ sad_intensity m = f0) ∧
  (fs !! "rms_energy" = Some (PyFloat S754_nan) →
     energetic_intensity m = f1 ∧ angry_intensity m = f1 ∧
     calm_intensity m = f0) ∧
  (fs !! "spectral_centroid" = Some (PyFloat S754_nan) →
     happy_intensity m = f1 ∧ sad_intensity m = f0) ∧
  (fs !! "zero_crossing_rate" = Some (PyFloat S754_nan) →
     angry_intensity m = f1).
Proof.
  intros (t & r & c & z & Ht & Hr & Hc & Hz & ->)%analyze_mood_Some_inv.
  split; [|split; [|split]]; intros E; rewrite E in *;
    match goal with
    | H : Some (PyFloat S754_nan) = Some (PyFloat ?a) |- _ =>
        injection H as <-
    end;
    unfold mood_formula, clamp01; simpl;
    change (Float64.div S754_nan ?y) with S754_nan;
    rewrite ?add_nan_l, ?add_nan_r, ?mul_nan_l, ?mul_nan_r;
    change (Float64.div S754_nan ?y) with S754_nan;
    repeat split; reflexivity.
Qed.

Lemma nan_input_scores_as_maximum_witness :
  ∃ m, analyze_mood nan_tempo_features = Some m ∧
       nan_tempo_features !! "tempo" = Some (PyFloat S754_nan) ∧
       energetic_intensity m = f1 ∧ happy_intensity m = f1 ∧
       calm_intensity m = f0 ∧ sad_intensity m = f0.
Proof.
  assert (∃ m, analyze_mood nan_tempo_features = Some m) as [m Hm]
    by (eexists; vm_compute; reflexivity).
  assert (nan_tempo_features !! "tempo" = Some (PyFloat S754_nan)) as Ht
    by reflexivity.
  exists m. split; [exact Hm|]. split; [exact Ht|].
  exact (proj1 (nan_input_scores_as_maximum nan_tempo_features m Hm) Ht).
Defined.

Lemma tempo_factor_nonneg (t : float) :
  nonneg t = true → nonneg (Float64.py_min (Float64.div t f180) f1) = true.
Proof.
  intros Ht. apply py_min_nonneg; [|done].
  by apply (div_nonneg t 6333186975989760 (-45)).
Qed.

Lemma half_nonneg (x : float) :
  nonneg x = true → nonneg (Float64.div x (Float64.of_Z 2)) = true.
Proof. apply (div_nonneg x 4503599627370496 (-51)). Qed.

(** X3. When tempo, rms_energy, spectral_centroid and zero_crossing_rate
    are floats that compare [0.0 <= x] (plus infinity allowed), the scorer
    succeeds and energetic, happy and angry all lie between 0.0 and 1.0. *)
Theorem nonnegative_inputs_unit_interval fs (t r c z : float) :
  fs !! "tempo" = Some (PyFloat t) →
  fs !! "rms_energy" = Some (PyFloat r) →
  fs !! "spectral_centroid" = Some (PyFloat c) →
  fs !! "zero_crossing_rate" = Some (PyFloat z) →
  Float64.leb f0 t = true → Float64.leb f0 r = true →
  Float64.leb f0 c = true → Float64.leb f0 z = true →
  ∃ m, analyze_mood fs = Some m ∧
    Float64.leb f0 (energetic_intensity m) = true ∧
    Float64.leb (energetic_intensity m) f1 = true ∧
    Float64.leb f0 (happy_intensity m) = true ∧
    Float64.leb (happy_intensity m) f1 = true ∧
    Float64.leb f0 (angry_intensity m) = true ∧
    Float64.leb (angry_intensity m) f1 = true.
Proof.
  intros Ht Hr Hc Hz. rewrite !leb_0_nonneg. intros Nt Nr Nc Nz.
  exists (mood_formula t r c z). split; [by apply analyze_mood_floats|].
  simpl. rewrite !leb_0_nonneg.
  pose proof (tempo_factor_nonneg t Nt) as Ntf.
  pose proof (mul_nonneg_const r 5629499534213120 (-49) Nr) as Nef.
  change (S754_finite false 5629499534213120 (-49)) with (Float64.of_Z 10) in Nef.
  pose proof (div_nonneg c 8796093022208000 (-41) Nc) as Nbr.
  change (S754_finite false 8796093022208000 (-41)) with (Float64.of_Z 4000) in Nbr.
  split; [|split; [apply clamp01_le_1|]].
  { apply clamp01_nonneg. left. by apply half_nonneg, add_nonneg. }
  split; [|split; [apply clamp01_le_1|]].
  { apply clamp01_nonneg. left. by apply half_nonneg, add_nonneg. }
  split; [|apply clamp01_le_1].
  apply clamp01_nonneg. by apply mul_nonneg.
Qed.

Lemma nonnegative_inputs_unit_interval_witness :
  ∃ m, analyze_mood high_centroid_features = Some m ∧
    Float64.leb f0 (happy_intensity m) = true ∧
    Float64.leb (happy_intensity m) f1 = true.
Proof.
  destruct (nonnegative_inputs_unit_interval high_centroid_features
    f180 (Float64.decimal 5 2) (S754_infinity false) (Float64.decimal 1 1))
    as (m & Hm & _ & _ & H3 & H4 & _); try reflexivity.
  by exists m.
Defined.

Lemma clamp01_cases (y : float) :
  clamp01 y = f1 ∨ (clamp01 y = y ∧ Float64.ltb y f1 = true).
Proof.
  unfold clamp01, Float64.py_min.
  destruct (Float64.ltb y f1); [by right | by left].
Qed.

Lemma one_minus_clamped_half_nonneg (x : float) :
  nonneg (Float64.sub f1 (clamp01 (Float64.div x (Float64.of_Z 2)))) = true.
Proof.
  pose proof (div_bounded x false 4503599627370496 (-51)) as Hb.
  change (S754_finite false 4503599627370496 (-51)) with (Float64.of_Z 2) in Hb.
  destruct (clamp01_cases (Float64.div x (Float64.of_Z 2))) as [-> | [-> Hlt]].
  - done.
  - apply sub_1_nonneg; [done|by right].
Qed.

(** X4. Calm and sad are never negative: for every feature vector the
    scorer accepts, [0.0 <= calm] and [0.0 <= sad], also when the inputs
    are negative, infinite or NaN. *)
Theorem calm_sad_never_negative fs m :
  analyze_mood fs = Some m →
  Float64.leb f0 (calm_intensity m) = true ∧
  Float64.leb f0 (sad_intensity m) = true.
Proof.
  intros (t & r & c & z & _ & _ & _ & _ & ->)%analyze_mood_Some_inv.
  rewrite !leb_0_nonneg. simpl.
  split; apply one_minus_clamped_half_nonneg.
Qed.

Lemma calm_sad_never_negative_witness :
  ∃ m, analyze_mood negative_tempo_features = Some m ∧
    Float64.leb f0 (calm_intensity m) = true ∧
    Float64.leb f0 (sad_intensity m) = true.
Proof.
  assert (∃ m, analyze_mood negative_tempo_features = Some m) as [m Hm]
    by (eexists; vm_compute; reflexivity).
  exists m. split; [exact Hm|].
  exact (calm_sad_never_negative negative_tempo_features m Hm).
Defined.

(** X5. A [KeyError] leaves the scorer's body only for one of the four
    keys it reads, and only when that key is absent; and when a key is
    absent while the keys read before it (in the order tempo, rms_energy,
    spectral_centroid, zero_crossing_rate) hold floats, the body raises
    the [KeyError] of that key: the first missing key is the one
    reported. *)
Theorem analyze_mood_body_key_error fs :
  (∀ k, analyze_mood_body fs = Raise (KeyError k) →
        k ∈ used_keys ∧ fs !! k = None) ∧
  (∀ (i : nat) k,
     used_keys !! i = Some k → fs !! k = None →
     (∀ (j : nat) k', (j < i)%nat → used_keys !! j = Some k' →
                      numeric_at fs k' = true) →
     analyze_mood_body fs = Raise (KeyError k)).
Proof.
  split.
  - intros k.
    unfold analyze_mood_body, tempo_factor, energy_factor, brightness, getitem.
    destruct (fs !! "tempo") as [[t|st|]|] eqn:Et;
    destruct (fs !! "rms_energy") as [[r|sr|]|] eqn:Er;
    destruct (fs !! "spectral_centroid") as [[c|sc|]|] eqn:Ec;
    destruct (fs !! "zero_crossing_rate") as [[z|sz|]|] eqn:Ez;
    simpl; intros H; try discriminate H; injection H as <-;
    (split; [apply list_elem_of_In; simpl; tauto|assumption]).
  - intros i k Hi Hk Hbefore.
    assert (∀ (j : nat) k', (j < i)%nat → used_keys !! j = Some k' →
              ∃ x : float, fs !! k' = Some (PyFloat x)) as Hfl.
    { intros j k' Hj Hjk. by apply numeric_at_true, (Hbefore j). }
    unfold analyze_mood_body, tempo_factor, energy_factor, brightness, getitem.
    destruct i as [|[|[|[|i]]]]; simpl in Hi; [..|done]; injection Hi as <-.
    + by rewrite Hk.
    + destruct (Hfl 0%nat "tempo") as [t ->]; [lia|done|].
      by rewrite Hk.
    + destruct (Hfl 0%nat "tempo") as [t ->]; [lia|done|].
      destruct (Hfl 1%nat "rms_energy") as [r ->]; [lia|done|].
      by rewrite Hk.
    + destruct (Hfl 0%nat "tempo") as [t ->]; [lia|done|].
      destruct (Hfl 1%nat "rms_energy") as [r ->]; [lia|done|].
      destruct (Hfl 2%nat "spectral_centroid") as [c ->]; [lia|done|].
      by rewrite Hk.
Qed.

Lemma analyze_mood_body_key_error_witness :
  analyze_mood_body (delete "rms_energy" example_features)
  = Raise (KeyError "rms_energy").
Proof.
  apply (proj2 (analyze_mood_body_key_error (delete "rms_energy" example_features))
           1%nat "rms_energy"); [reflexivity|reflexivity|].
  intros j k' Hj Hjk. destruct j as [|j]; [|lia].
  injection Hjk as <-. reflexivity.
Defined.

End ScorerFurther.

(** ** Paths, further *)

Section PathsFurther.

Lemma six_digits_inj (a b : N) :
  (a < 1000000)%N → (b < 1000000)%N → six_digits a = six_digits b → a = b.
Proof.
  intros Ha Hb H. unfold six_digits, digit_of in H.
  injection H as H5 H4 H3 H2 H1 H0.
  apply pretty_N_char_inj in H0, H1, H2, H3, H4, H5;
    try (apply N.mod_lt; discriminate).
  apply N2Z.inj.
  apply (f_equal Z.of_N) in H0, H1, H2, H3, H4, H5.
  rewrite !N2Z.inj_mod, !N2Z.inj_div in *.
  change (Z.of_N 10) with 10 in *. change (Z.of_N 100) with 100 in *.
  change (Z.of_N 1000) with 1000 in *. change (Z.of_N 10000) with 10000 in *.
  change (Z.of_N 100000) with 100000 in *.
  assert (0 ≤ Z.of_N a < 1000000) as Ra by lia.
  assert (0 ≤ Z.of_N b < 1000000) as Rb by lia.
  generalize dependent (Z.of_N a). generalize dependent (Z.of_N b).
  intros y Hy x. intros. clear Ha Hb. Z.to_euclidean_division_equations. lia.
Qed.

(** X6. Two different ids between 0 and 999999 never share an audio
    path. *)
Theorem get_audio_path_injective (a b : Z) :
  0 ≤ a ≤ 999999 → 0 ≤ b ≤ 999999 →
  a ≠ b → get_audio_path a ≠ get_audio_path b.
Proof.
  intros Ha Hb Hne H. apply Hne.
  rewrite !get_audio_path_sharded in H by done.
  unfold sharded_path, first_three_digits, six_digits in H.
  cbv [String.append] in H. injection H. intros.
  assert (Z.to_N a = Z.to_N b); [|lia].
  apply six_digits_inj; [lia..|]. unfold six_digits. congruence.
Qed.

Lemma get_audio_path_injective_witness :
  get_audio_path 2 ≠ get_audio_path 100002.
Proof. apply get_audio_path_injective; lia. Defined.

End PathsFurther.

(** ** The Catalog Loader, further *)

Section CatalogFurther.

Implicit Types (env : environment) (rows : list catalog_row) (t : track).

(** X7. Every track the loader returns has its audio file on disk, at the
    path [get_audio_path] gives for its id, and its id is the label of a
    line of the metadata table. When the label is on one line only, the
    track carries the title, artist and album of that line; when it is on
    several, each of the three is a [Series] of the entries of all these
    lines. *)
Theorem load_all_tracks_sound env t :
  t ∈ load_all_tracks env →
  path_exists env (file_path t) = true ∧
  file_path t = get_audio_path (track_id t) ∧
  ∃ rows, read_csv env = Ok rows ∧
    match filter (λ r, row_track_id r = track_id t) rows with
    | [] => False
    | [r] =>
        title t = Scalar (row_title r) ∧ artist t = Scalar (row_artist r) ∧
        album t = Scalar (row_album r)
    | rs =>
        title t = Series (row_title <$> rs) ∧
        artist t = Series (row_artist <$> rs) ∧
        album t = Series (row_album <$> rs)
    end.
Proof.
  destruct (read_csv env) as [rows|e] eqn:E.
  2:{ unfold load_all_tracks. rewrite E. by intros ?%elem_of_nil. }
  rewrite (load_all_tracks_omap env rows E).
  intros (id & Hid & [Hex ->]%track_at_Some)%list_elem_of_omap. simpl.
  split; [done|]. split; [done|]. exists rows. split; [done|].
  apply list_elem_of_fmap in Hid as (r & -> & Hr).
  unfold loc_entries.
  destruct (filter (λ r', row_track_id r' = row_track_id r) rows)
    as [|r1 [|r2 rs]] eqn:Ef; [|done..].
  assert (r ∈ filter (λ r', row_track_id r' = row_track_id r) rows) as Hin
    by (by apply list_elem_of_filter).
  rewrite Ef in Hin. by apply elem_of_nil in Hin.
Qed.

Lemma load_all_tracks_sound_witness :
  path_exists repeated_id_env "dataset/fma_small/000/000002.mp3" = true ∧
  "dataset/fma_small/000/000002.mp3" = get_audio_path 2 ∧
  ∃ rows, read_csv repeated_id_env = Ok rows ∧
    match filter (λ r, row_track_id r = 2) rows with
    | [] => False
    | [r] =>
        Series [Text "Food"; Text "Food (live)"] = Scalar (row_title r) ∧
        Series [Text "AWOL"; Text "AWOL"] = Scalar (row_artist r) ∧
        Series [Text "AWOL - A Way Of Life"; Text "Live"] = Scalar (row_album r)
    | rs =>
        Series [Text "Food"; Text "Food (live)"] = Series (row_title <$> rs) ∧
        Series [Text "AWOL"; Text "AWOL"] = Series (row_artist <$> rs) ∧
        Series [Text "AWOL - A Way Of Life"; Text "Live"] = Series (row_album <$> rs)
    end.
Proof.
  apply (load_all_tracks_sound repeated_id_env
    {| track_id := 2;
       title := Series [Text "Food"; Text "Food (live)"];
       artist := Series [Text "AWOL"; Text "AWOL"];
       album := Series [Text "AWOL - A Way Of Life"; Text "Live"];
       file_path := "dataset/fma_small/000/000002.mp3" |}).
  apply list_elem_of_In. vm_compute. tauto.
Defined.

(** X8. The loader keeps the order of the metadata table and drops
    exactly the lines whose audio file is missing: the ids it returns are
    the table's ids filtered by the existence of their file. In
    particular distinct ids in the table give distinct ids in the
    result, and no more tracks than lines. *)
Theorem load_all_tracks_ids env rows :
  read_csv env = Ok rows →
  track_id <$> load_all_tracks env
  = filter (λ id, path_exists env (get_audio_path id) = true)
      (row_track_id <$> rows) ∧
  (NoDup (row_track_id <$> rows) → NoDup (track_id <$> load_all_tracks env)) ∧
  (length (load_all_tracks env) ≤ length rows)%nat.
Proof.
  intros E. rewrite (load_all_tracks_omap env rows E).
  split; [apply omap_track_ids|]. split.
  - intros Hnd. rewrite omap_track_ids. by apply NoDup_filter.
  - rewrite <-(length_fmap track_id), omap_track_ids.
    etrans; [apply length_filter|]. by rewrite length_fmap.
Qed.

Lemma load_all_tracks_ids_witness :
  track_id <$> load_all_tracks example_env
  = filter (λ id, path_exists example_env (get_audio_path id) = true)
      (row_track_id <$> example_rows).
Proof. exact (proj1 (load_all_tracks_ids example_env example_rows eq_refl)). Defined.

(** X9. A readable metadata table none of whose audio files is on disk
    ends the run like an unreadable one: "No tracks found!", nothing
    executed, nothing committed. *)
Theorem no_audio_files_no_tracks env rows (batch_size : Z) (db : database) :
  read_csv env = Ok rows →
  (∀ r, r ∈ rows → path_exists env (get_audio_path (row_track_id r)) = false) →
  load_all_tracks env = [] ∧
  process_and_store env batch_size db =
    NoTracks ["Loading tracks metadata..."; "No tracks found!"] (connect db).
Proof.
  intros E Hnone.
  assert (load_all_tracks env = []) as Hnil.
  { rewrite (load_all_tracks_omap env rows E).
    apply elem_of_nil_inv. intros t (id & Hid & Ht)%list_elem_of_omap.
    apply track_at_Some in Ht as [Hex _].
    apply list_elem_of_fmap in Hid as (r & -> & Hr).
    by rewrite (Hnone r Hr) in Hex. }
  split; [done|]. unfold process_and_store. by rewrite Hnil.
Qed.

Lemma no_audio_files_no_tracks_witness :
  load_all_tracks no_audio_env = [] ∧
  process_and_store no_audio_env 100 fresh_database =
    NoTracks ["Loading tracks metadata..."; "No tracks found!"]
      (connect fresh_database).
Proof.
  apply (no_audio_files_no_tracks no_audio_env example_rows); done.
Defined.

End CatalogFurther.

(** ** The store, further *)

Section StoreFurther.

Implicit Types (db : database) (t : track) (row : song_row) (rows : list song_row).

Lemma upsert_song_NoDup rows row :
  NoDup (song_track_id <$> rows) →
  NoDup (song_track_id <$> upsert_song rows row).
Proof.
  intros Hnd. unfold upsert_song. rewrite fmap_app. apply NoDup_app.
  split; [|split].
  - clear -Hnd. induction rows as [|r rows IH]; [constructor|].
    rewrite fmap_cons in Hnd. apply NoDup_cons in Hnd as [Hr Hnd].
    rewrite filter_cons. destruct (decide _); [|by apply IH].
    rewrite fmap_cons. apply NoDup_cons. split; [|by apply IH].
    intros (r' & Heq & [_ Hin]%list_elem_of_filter)%list_elem_of_fmap.
    apply Hr. apply list_elem_of_fmap. by exists r'.
  - intros k (r & -> & [Hne _]%list_elem_of_filter)%list_elem_of_fmap.
    intros Heq%list_elem_of_singleton. done.
  - apply NoDup_singleton.
Qed.

(** X10. [INSERT OR REPLACE INTO songs] succeeds exactly when the table
    exists and the parameters bind: the id fits SQLite's 64-bit INTEGER
    and title, artist and album are entries, not [Series]. When it
    succeeds, the table holds the new row, a table without duplicate ids
    stays without, a row with another id is in the table afterwards
    exactly when it was there before, and the mood_analysis table is not
    touched. *)
Theorem insert_or_replace_song_keeps_key db t :
  ((∃ db', insert_or_replace_song t db = Ok db') ↔
   is_Some (songs db) ∧ storable t = true) ∧
  (∀ db', insert_or_replace_song t db = Ok db' →
     ∃ row, song_params t = Ok row ∧
       row ∈ song_rows db' ∧
       (NoDup (song_track_id <$> song_rows db) →
        NoDup (song_track_id <$> song_rows db')) ∧
       (∀ r, song_track_id r ≠ track_id t →
             (r ∈ song_rows db' ↔ r ∈ song_rows db)) ∧
       mood_analysis db' = mood_analysis db ∧ mood_seq db' = mood_seq db).
Proof.
  split; [apply insert_or_replace_song_succeeds|].
  intros db' (rows & row & Hs & Hp & ->)%insert_or_replace_song_Ok.
  exists row. unfold song_rows. rewrite Hs. simpl.
  split; [done|]. split; [apply elem_of_app; right; by left|].
  split; [apply upsert_song_NoDup|]. split; [|done].
  intros r Hne. unfold upsert_song.
  rewrite elem_of_app, list_elem_of_filter, list_elem_of_singleton.
  rewrite (song_params_track_id t row Hp).
  split; [intros [[_ ?]| ->]; [done|] | intros ?; left; done].
  by rewrite (song_params_track_id t row Hp) in Hne.
Qed.

Lemma insert_or_replace_song_keeps_key_witness :
  (∃ db', insert_or_replace_song (example_track "Food") fresh_database = Ok db' ∧
          example_song "Food" ∈ song_rows db') ∧
  ¬ (∃ db', insert_or_replace_song huge_id_track fresh_database = Ok db').
Proof.
  split.
  - destruct (proj2 (proj1 (insert_or_replace_song_keeps_key fresh_database
                              (example_track "Food"))))
      as [db' E]; [split; [by eexists|reflexivity]|].
    destruct (proj2 (insert_or_replace_song_keeps_key fresh_database
                       (example_track "Food")) db' E)
      as (row & Hp & Hin & _).
    injection Hp as <-. by exists db'.
  - intros H.
    apply (proj1 (insert_or_replace_song_keeps_key fresh_database huge_id_track))
      in H as [_ H].
    discriminate H.
Defined.

Lemma mood_snoc_NoDup (mrows : list mood_row) (r : mood_row) :
  (∀ r', r' ∈ mrows → mood_id r' < mood_id r) →
  NoDup (mood_id <$> mrows) → NoDup (mood_id <$> mrows ++ [r]).
Proof.
  intros Hlt Hnd. rewrite fmap_app. apply NoDup_app. split; [done|]. split.
  - intros k (r' & -> & Hin)%list_elem_of_fmap Heq%list_elem_of_singleton.
    specialize (Hlt r' Hin). simpl in Heq. lia.
  - apply NoDup_singleton.
Qed.

(** X11. [INSERT INTO mood_analysis] never reuses a key. When it
    succeeds, the new row goes to the end of the table under an id above
    every id in the table and above the largest id given out before, so a
    table without duplicate ids stays so, and the songs table is not
    touched. It succeeds whenever the table exists, the track id fits an
    INTEGER and the keys in use are below the largest INTEGER; once the
    largest INTEGER has been given out it fails. *)
Theorem insert_mood_analysis_fresh_id db (tid : Z) (m : moods) :
  (∀ db', insert_mood_analysis tid m db = Ok db' →
     ∃ id, mood_rows db' = mood_rows db ++ [mood_row_of id tid m] ∧
       (∀ r, r ∈ mood_rows db → mood_id r < id) ∧
       mood_seq db < id ∧ id ≤ max_rowid ∧ mood_seq db' = id ∧
       (NoDup (mood_id <$> mood_rows db) → NoDup (mood_id <$> mood_rows db')) ∧
       songs db' = songs db) ∧
  (∀ bound, is_Some (mood_analysis db) → sqlite_integer tid = true →
     keys_below bound db → bound < max_rowid →
     ∃ db', insert_mood_analysis tid m db = Ok db') ∧
  (max_rowid ≤ mood_seq db →
   ∃ e, insert_mood_analysis tid m db = Raise e).
Proof.
  split; [|split].
  - intros db' (mrows & id & Hm & _ & Hid & ->)%insert_mood_analysis_Ok.
    apply new_mood_id_Ok in Hid as (Hseq & Hrows & Hmax).
    exists id. unfold mood_rows. rewrite Hm. simpl.
    split; [done|]. split; [done|]. split; [done|]. split; [done|].
    split; [done|]. split; [|done].
    by apply mood_snoc_NoDup.
  - intros bound Hm Htid Hk Hb.
    destruct (insert_mood_analysis_room db tid m bound Hm Htid Hk Hb)
      as (db' & id & E & _).
    by exists db'.
  - intros Hfull. unfold insert_mood_analysis.
    destruct (mood_analysis db) as [mrows|]; [|by eexists].
    destruct (bind_int tid) as [tid'|e]; [|by eexists]. simpl.
    unfold new_mood_id. apply Z.leb_le in Hfull. rewrite Hfull.
    destruct (last_mood_id mrows); rewrite ?orb_true_r; by eexists.
Qed.

Lemma insert_mood_analysis_fresh_id_witness :
  (∃ db', insert_mood_analysis 2 example_moods fresh_database = Ok db' ∧
          mood_seq fresh_database < mood_seq db') ∧
  ∃ e, insert_mood_analysis 2 example_moods full_database = Raise e.
Proof.
  destruct (insert_mood_analysis_fresh_id fresh_database 2 example_moods)
    as (Hfresh & Hok & _).
  destruct (insert_mood_analysis_fresh_id full_database 2 example_moods)
    as (_ & _ & Hfull).
  split.
  - destruct (Hok 0) as [db' E].
    + by eexists.
    + reflexivity.
    + split; [done|]. split; [done|constructor].
    + reflexivity.
    + destruct (Hfresh db' E) as (id & _ & _ & Hlt & _ & Hseq & _).
      exists db'. split; [exact E|]. rewrite Hseq. exact Hlt.
  - apply Hfull. vm_compute. discriminate.
Defined.

End StoreFurther.

(** ** The Batch Processor, further *)

Section BatchFurther.

Context (env : environment).

Implicit Types (st : run_state) (t : track) (l : list track) (db : database).

Local Abbreviation step := (process_track env).
Local Abbreviation passes := (λ t : track, passes_every_stage env t = true).

(** *** Every item is counted once *)

Lemma process_track_counts st t :
  (processed_count (step st t) = processed_count st + 1 ∧
   error_count (step st t) = error_count st) ∨
  (processed_count (step st t) = processed_count st ∧
   error_count (step st t) = error_count st + 1).
Proof.
  pose proof (process_track_cases env st t) as H.
  destruct (scored env t); [|right; by rewrite H].
  destruct (songs (working (conn st))); [|right; by rewrite H].
  destruct (song_params t); [|right; by rewrite H]. simpl in H.
  destruct (mood_analysis (working (conn st))) as [mrows|];
    [|right; by rewrite H].
  destruct (new_mood_id mrows _); [left|right]; by rewrite H.
Qed.

Lemma fold_tracks_total l st :
  processed_count (fold_left step l st) + error_count (fold_left step l st)
  = processed_count st + error_count st + Z.of_nat (length l) ∧
  processed_count st ≤ processed_count (fold_left step l st) ∧
  error_count st ≤ error_count (fold_left step l st).
Proof.
  revert st. induction l as [|t l IH]; intros st; simpl; [lia|].
  destruct (IH (step st t)) as (IH1 & IH2 & IH3).
  destruct (process_track_counts st t) as [[Hp He]|[Hp He]]; lia.
Qed.

(** X12. With a positive batch size and at least one track, the run ends
    normally and counts every track exactly once: processed_count and
    error_count are not negative and add up to the number of tracks,
    whatever fails and whatever state the database is in. *)
Theorem every_track_counted_once (batch_size : Z) db :
  0 < batch_size →
  load_all_tracks env ≠ [] →
  ∃ out db' processed errors,
    process_and_store env batch_size db = Completed out db' processed errors ∧
    0 ≤ processed ∧ 0 ≤ errors ∧
    processed + errors = Z.of_nat (length (load_all_tracks env)).
Proof.
  intros Hb Hne.
  destruct (process_and_store_completed env batch_size db Hb Hne) as (out & Hrun & _).
  eexists _, _, _, _. split; [exact Hrun|].
  unfold process_all.
  destruct (fold_tracks_total (load_all_tracks env) (start_state db []))
    as (H1 & H2 & H3).
  simpl in *. lia.
Qed.


Lemma py_range_negative_step (n step' : Z) :
  step' < 0 → 0 ≤ n → py_range 0 n step' = Ok [].
Proof.
  intros Hs Hn. unfold py_range.
  destruct (step' =? 0) eqn:E0; [lia|].
  destruct (0 <? step') eqn:E1; [lia|].
  assert ((0 - n - step' - 1) / - step' < 1) as Hq
    by (apply Z.div_lt_upper_bound; lia).
  rewrite Z.max_l by lia. reflexivity.
Qed.

(** X14. A batch size that is not positive processes nothing. With
    batch size 0 the call ends in an uncaught [ValueError] (the step of
    [range]) after the tracks are loaded; with a negative batch size it
    prints "Processing complete!" with both counts 0. In both cases no
    statement is executed and the database is as it was. *)
Theorem nonpositive_batch_size_processes_nothing db :
  load_all_tracks env ≠ [] →
  (∃ out, process_and_store env 0 db = Uncaught ValueError out (connect db)) ∧
  (∀ batch_size, batch_size < 0 →
     ∃ out, process_and_store env batch_size db = Completed out db 0 0).
Proof.
  intros Hne. unfold process_and_store.
  destruct (load_all_tracks env) as [|t0 l0]; [done|]. split.
  - by eexists.
  - intros batch_size Hb.
    rewrite py_range_negative_step by lia. by eexists.
Qed.

(** *** Missing tables *)

Lemma fold_tracks_no_songs l st :
  songs (working (conn st)) = None →
  working (conn (fold_left step l st)) = working (conn st) ∧
  processed_count (fold_left step l st) = processed_count st ∧
  error_count (fold_left step l st) = error_count st + Z.of_nat (length l).
Proof.
  revert st. induction l as [|t l IH]; intros st Hs; simpl; [split; [done|lia]|].
  assert (step st t = count_error st) as ->.
  { pose proof (process_track_cases env st t) as H.
    destruct (scored env t); [|done]. by rewrite Hs in H. }
  destruct (IH (count_error st) Hs) as (IH1 & IH2 & IH3).
  rewrite IH1, IH2, IH3. simpl. split; [done|lia].
Qed.

(** X15. When the songs table does not exist (the database was never
    set up), a run with a positive batch size still ends normally: every
    track is counted as an error, none as processed, and the database is
    left exactly as it was. *)
Theorem missing_songs_table_all_errors (batch_size : Z) db :
  0 < batch_size →
  load_all_tracks env ≠ [] →
  songs db = None →
  ∃ out, process_and_store env batch_size db =
    Completed out db 0 (Z.of_nat (length (load_all_tracks env))).
Proof.
  intros Hb Hne Hs.
  destruct (process_and_store_completed env batch_size db Hb Hne) as (out & Hrun & _).
  exists out. rewrite Hrun. unfold process_all.
  destruct (fold_tracks_no_songs (load_all_tracks env) (start_state db []) Hs)
    as (-> & -> & ->).
  reflexivity.
Qed.

Lemma fold_tracks_no_moods l st :
  mood_analysis (working (conn st)) = None →
  mood_analysis (working (conn (fold_left step l st))) = None ∧
  processed_count (fold_left step l st) = processed_count st ∧
  error_count (fold_left step l st) = error_count st + Z.of_nat (length l).
Proof.
  revert st. induction l as [|t l IH]; intros st Hm; simpl;
    [split; [done|lia]|].
  assert (mood_analysis (working (conn (step st t))) = None ∧
          processed_count (step st t) = processed_count st ∧
          error_count (step st t) = error_count st + 1) as (Hm' & Hp & He).
  { pose proof (process_track_cases env st t) as H.
    destruct (scored env t); [|by rewrite H].
    destruct (songs (working (conn st))); [|by rewrite H].
    destruct (song_params t); [|by rewrite H].
    rewrite Hm in H. simpl in H. by rewrite H. }
  destruct (IH (step st t) Hm') as (IH1 & IH2 & IH3).
  rewrite IH1, IH2, IH3, Hp, He. split; [done|lia].
Qed.

(** The row a track that passes every stage has in the songs table
    after a pass. *)
Lemma passing_track_song_row t (rows : list song_row) :
  t ∈ load_all_tracks env → passes t →
  ∃ row, song_params t = Ok row ∧
    filter (λ r, song_track_id r = track_id t)
      (upsert_songs rows (filter passes (load_all_tracks env))) = [row].
Proof.
  intros Hin Hpass. pose proof Hpass as [_ Hst]%andb_true_iff.
  apply song_params_storable in Hst as [row Hp].
  exists row. split; [done|].
  apply upsert_songs_filter_key_in; [|by apply list_elem_of_filter|done].
  apply storable_ids_NoDup. by intros t' [_ ?]%andb_true_iff.
Qed.

(** X16. When the songs table exists and the mood_analysis table does
    not, every track is counted as an error and none as processed, yet
    the songs rows of the tracks that pass every stage up to the second
    insert (float features, parameters that bind) are written and
    committed: each such track has exactly one row under its id, its
    own. *)
Theorem missing_mood_table_keeps_song_rows (batch_size : Z) db
    (rows : list song_row) :
  0 < batch_size →
  load_all_tracks env ≠ [] →
  songs db = Some rows →
  mood_analysis db = None →
  ∃ out db',
    process_and_store env batch_size db =
      Completed out db' 0 (Z.of_nat (length (load_all_tracks env))) ∧
    mood_analysis db' = None ∧
    (∀ t, t ∈ load_all_tracks env → passes_every_stage env t = true →
       ∃ row, song_params t = Ok row ∧
         filter (λ r, song_track_id r = track_id t) (song_rows db') = [row]).
Proof.
  intros Hb Hne Hs Hm.
  destruct (process_and_store_completed env batch_size db Hb Hne) as (out & Hrun & _).
  unfold process_all in Hrun.
  set (st0 := start_state db []) in *.
  destruct (fold_tracks_no_moods (load_all_tracks env) st0 Hm)
    as (Hm' & Hp & He).
  pose proof (fold_tracks_songs env (load_all_tracks env) st0 rows Hs) as Hs'.
  rewrite Hp, He in Hrun. simpl in Hrun.
  eexists _, _. split; [exact Hrun|]. split; [done|].
  intros t Hin Hpass. unfold song_rows. rewrite Hs'. simpl.
  by apply passing_track_song_row.
Qed.

(** *** The mood_analysis table through a pass *)

(** X17. The mood_analysis table only grows at its end: after a run on
    a database with both tables and a free key for every track, the
    committed table is the old table followed by one new row per track
    that passes every stage (float features, parameters that bind), in
    catalog order, each with that track's id and mood vector;
    processed_count is the number of new rows. *)
Theorem mood_rows_appended_in_order (batch_size : Z) db :
  0 < batch_size →
  load_all_tracks env ≠ [] →
  has_tables db →
  keys_below (max_rowid - Z.of_nat (length (load_all_tracks env))) db →
  ∃ out db' errors (new : list mood_row),
    process_and_store env batch_size db =
      Completed out db' (Z.of_nat (length new)) errors ∧
    mood_rows db' = mood_rows db ++ new ∧
    Forall2 (λ r t, ∃ m, scored env t = Some m
                         ∧ r = mood_row_of (mood_id r) (track_id t) m)
      new (filter passes (load_all_tracks env)).
Proof.
  intros Hb Hne Ht Hk.
  destruct (process_and_store_completed env batch_size db Hb Hne) as (out & Hrun & _).
  unfold process_all in Hrun. set (st0 := start_state db []) in *.
  destruct (fold_tracks_passing env (load_all_tracks env) st0
              (max_rowid - Z.of_nat (length (load_all_tracks env))) Ht Hk)
    as (new & Hrows & Hall & _ & Hp & _); [lia|].
  rewrite Hp in Hrun. simpl in Hrun.
  eexists out, _, _, new. split; [exact Hrun|]. by split.
Qed.

(** *** Keys *)


Lemma process_track_well_keyed st t :
  well_keyed (working (conn st)) →
  well_keyed (working (conn (step st t))) ∧
  mood_seq (working (conn st)) ≤ mood_seq (working (conn (step st t))).
Proof.
  intros Hk. pose proof (process_track_cases env st t) as H.
  destruct (scored env t) as [m|];
    [|rewrite H; simpl; split; [done|lia]].
  destruct (songs (working (conn st))) as [rows|] eqn:Es;
    [|rewrite H; simpl; split; [done|lia]].
  destruct (song_params t) as [row|e];
    [|rewrite H; simpl; split; [done|lia]].
  simpl in H. destruct Hk as [Hsongs Hmoods].
  unfold well_keyed, song_rows, mood_rows in *. rewrite Es in Hsongs.
  destruct (mood_analysis (working (conn st))) as [mrows|] eqn:Em.
  - destruct (new_mood_id mrows _) as [id|e] eqn:Eid; rewrite H; simpl; rewrite ?Em.
    + apply new_mood_id_Ok in Eid as (Hseq & Hrows & _).
      split; [|lia]. split; [by apply upsert_song_NoDup|].
      by apply mood_snoc_NoDup.
    + split; [|lia]. split; [by apply upsert_song_NoDup|done].
  - rewrite H. simpl. rewrite ?Em.
    split; [|lia]. split; [by apply upsert_song_NoDup|done].
Qed.

Lemma fold_tracks_well_keyed l st :
  well_keyed (working (conn st)) →
  well_keyed (working (conn (fold_left step l st))) ∧
  mood_seq (working (conn st)) ≤ mood_seq (working (conn (fold_left step l st))).
Proof.
  revert st. induction l as [|t l IH]; intros st Hk; simpl; [by split|].
  destruct (process_track_well_keyed st t Hk) as [Hk1 Hseq1].
  destruct (IH _ Hk1) as [Hk2 Hseq2]. split; [done|lia].
Qed.

(** X19. A run keeps the keys of both tables unique: started on a
    database in which no two songs rows share a track_id and no two
    mood_analysis rows share an id, it commits a database with the same
    property, and the largest id given out never goes down. *)
Theorem run_keeps_keys_unique (batch_size : Z) db :
  0 < batch_size →
  load_all_tracks env ≠ [] →
  well_keyed db →
  ∃ out db' processed errors,
    process_and_store env batch_size db = Completed out db' processed errors ∧
    well_keyed db' ∧ mood_seq db ≤ mood_seq db'.
Proof.
  intros Hb Hne Hk.
  destruct (process_and_store_completed env batch_size db Hb Hne) as (out & Hrun & _).
  unfold process_all in Hrun.
  destruct (fold_tracks_well_keyed (load_all_tracks env) (start_state db []) Hk)
    as [Hk' Hseq].
  by eexists _, _, _, _.
Qed.

End BatchFurther.

Lemma load_example_nonempty : load_all_tracks example_env ≠ [].
Proof. intros H. vm_compute in H. discriminate H. Qed.

Lemma every_track_counted_once_witness :
  ∃ out db' processed errors,
    process_and_store example_env 2 songs_only_database
      = Completed out db' processed errors ∧
    processed + errors = 3.
Proof.
  destruct (every_track_counted_once example_env 2 songs_only_database)
    as (out & db' & p & e & Hrun & _ & _ & Hsum);
    [lia|apply load_example_nonempty|].
  by exists out, db', p, e.
Defined.


Lemma nonpositive_batch_size_processes_nothing_witness :
  (∃ out, process_and_store example_env 0 fresh_database
          = Uncaught ValueError out (connect fresh_database)) ∧
  (∃ out, process_and_store example_env (-5) fresh_database
          = Completed out fresh_database 0 0).
Proof.
  destruct (nonpositive_batch_size_processes_nothing example_env fresh_database
              load_example_nonempty) as [H0 Hneg].
  split; [exact H0|]. apply Hneg. lia.
Defined.

Lemma missing_songs_table_all_errors_witness :
  ∃ out, process_and_store example_env 2 empty_database =
    Completed out empty_database 0 (Z.of_nat (length (load_all_tracks example_env))).
Proof.
  apply missing_songs_table_all_errors;
    [lia|apply load_example_nonempty|reflexivity].
Defined.

Lemma missing_mood_table_keeps_song_rows_witness :
  ∃ out db',
    process_and_store example_env 2 songs_only_database =
      Completed out db' 0 (Z.of_nat (length (load_all_tracks example_env))) ∧
    mood_analysis db' = None.
Proof.
  destruct (missing_mood_table_keeps_song_rows example_env 2
              songs_only_database [])
    as (out & db' & Hrun & Hm & _);
    [lia|apply load_example_nonempty|reflexivity|reflexivity|].
  by exists out, db'.
Defined.

Lemma mood_rows_appended_in_order_witness :
  ∃ out db' errors (new : list mood_row),
    process_and_store example_env 2 fresh_database =
      Completed out db' (Z.of_nat (length new)) errors ∧
    mood_rows db' = mood_rows fresh_database ++ new.
Proof.
  destruct (mood_rows_appended_in_order example_env 2 fresh_database)
    as (out & db' & e & new & Hrun & Hrows & _);
    [lia|apply load_example_nonempty|split; by eexists
    |split; [by vm_compute|split; [by vm_compute|constructor]]|].
  by exists out, db', e, new.
Defined.


Lemma run_keeps_keys_unique_witness :
  ∃ out db' processed errors,
    process_and_store example_env 2 fresh_database
      = Completed out db' processed errors ∧
    well_keyed db'.
Proof.
  destruct (run_keeps_keys_unique example_env 2 fresh_database)
    as (out & db' & p & e & Hrun & Hk & _);
    [lia|apply load_example_nonempty|split; constructor|].
  by exists out, db', p, e.
Defined.

(** ** Set-up, further *)

Section SetupFurther.

Implicit Types (w : world) (db_name user_input : string).

Lemma check_existing_cases db_name user_input w :
  match files w !! db_name with
  | None => check_existing db_name user_input w = inr w
  | Some _ =>
      if decide (user_input = "y" ∨ user_input = "Y") then
        ∃ w', check_existing db_name user_input w = inr w'
              ∧ files w' = delete db_name (files w)
              ∧ can_connect w' = can_connect w
              ∧ console w `prefix_of` console w'
      else
        ∃ w', check_existing db_name user_input w = inl w'
              ∧ files w' = files w
              ∧ console w `prefix_of` console w'
  end.
Proof.
  unfold check_existing. destruct (files w !! db_name) as [d|]; [|done].
  destruct (decide _) as [Hy|Hn].
  - apply lower_y in Hy. rewrite Hy. simpl. eexists. split; [done|].
    simpl. split; [done|]. split; [done|].
    rewrite <-!(assoc_L (++)). by apply prefix_app_r.
  - destruct (String.eqb (lower user_input) "y") eqn:E; simpl.
    + apply String.eqb_eq, lower_y in E. done.
    + eexists. split; [done|]. simpl. split; [done|].
      rewrite <-!(assoc_L (++)). by apply prefix_app_r.
Qed.

(** The three ways the call ends. *)
Lemma create_database_cases db_name user_input w :
  let r := create_database db_name user_input w in
  (r.1 = Ok false ∧
   is_Some (files w !! db_name) ∧ ¬ (user_input = "y" ∨ user_input = "Y") ∧
   files r.2 = files w) ∨
  (r.1 = Ok true ∧
   (files w !! db_name = None ∨ user_input = "y" ∨ user_input = "Y") ∧
   can_connect w db_name = true ∧
   files r.2 = <[db_name := fresh_database]> (files w)) ∨
  (r.1 = Raise UnboundLocalError ∧
   (files w !! db_name = None ∨ user_input = "y" ∨ user_input = "Y") ∧
   can_connect w db_name = false ∧
   files r.2 = delete db_name (files w)).
Proof.
  unfold create_database.
  pose proof (check_existing_cases db_name user_input w) as H.
  destruct (files w !! db_name) as [d|] eqn:Ed.
  - destruct (decide _) as [Hy|Hn].
    + destruct H as (w' & -> & Hf & Hc & _). right. rewrite Hc.
      destruct (can_connect w db_name); [left|right]; simpl;
        (split; [done|]; split; [tauto|]; split; [done|]).
      * rewrite Hf, lookup_delete_eq. simpl. by rewrite insert_delete_eq.
      * done.
    + destruct H as (w' & -> & Hf & _). left. simpl.
      split; [done|]. split; [by eexists|]. by split.
  - rewrite H. right.
    destruct (can_connect w db_name); [left|right]; simpl;
      (split; [done|]; split; [tauto|]; split; [done|]).
    + by rewrite Ed.
    + symmetry. by apply delete_id.
Qed.

Lemma create_database_true_file db_name user_input w :
  (create_database db_name user_input w).1 = Ok true →
  files (create_database db_name user_input w).2 !! db_name
  = Some fresh_database.
Proof.
  intros Hok.
  destruct (create_database_cases db_name user_input w)
    as [(H & _)|[(_ & _ & _ & Hf)|(H & _)]]; simpl in *;
    [by rewrite H in Hok| |by rewrite H in Hok].
  rewrite Hf. apply lookup_insert_eq.
Qed.




(** X22. Set-up and run compose: on the database [create_database] has
    just created, a run with a positive batch size over fewer than 2^63
    tracks counts as processed exactly the tracks that pass every stage
    (float features, parameters that bind) and as errors exactly the
    others, and commits one mood_analysis row per processed track. *)
Theorem run_after_create_database
    (env : environment) db_name user_input w (batch_size : Z) (db0 : database) :
  (create_database db_name user_input w).1 = Ok true →
  files (create_database db_name user_input w).2 !! db_name = Some db0 →
  0 < batch_size →
  load_all_tracks env ≠ [] →
  Z.of_nat (length (load_all_tracks env)) ≤ max_rowid →
  ∃ out db' (stored : nat),
    stored = length (filter (λ t, passes_every_stage env t = true)
                       (load_all_tracks env)) ∧
    process_and_store env batch_size db0 =
      Completed out db' (Z.of_nat stored)
        (Z.of_nat (length (load_all_tracks env)) - Z.of_nat stored) ∧
    length (mood_rows db') = stored.
Proof.
  intros Hok Hfile Hb Hne Hlen.
  rewrite (create_database_true_file db_name user_input w Hok) in Hfile.
  injection Hfile as <-.
  destruct (process_and_store_completed env batch_size fresh_database Hb Hne)
    as (out & Hrun & _).
  unfold process_all in Hrun.
  destruct (fold_tracks_passing env (load_all_tracks env)
              (start_state fresh_database []) 0)
    as (new & Hrows & Hall & _ & Hp & He).
  { split; by eexists. }
  { split; [done|]. split; [done|constructor]. }
  { lia. }
  rewrite Hp, He in Hrun. simpl in Hrun.
  pose proof (Forall2_length _ _ _ Hall) as Hn.
  eexists _, _, _. split; [reflexivity|]. rewrite <-Hn.
  split; [exact Hrun|]. by rewrite Hrows.
Qed.

End SetupFurther.


Lemma run_after_create_database_witness :
  ∃ out db' (stored : nat),
    stored = length (filter (λ t, passes_every_stage example_env t = true)
                       (load_all_tracks example_env)) ∧
    process_and_store example_env 2 fresh_database =
      Completed out db' (Z.of_nat stored)
        (Z.of_nat (length (load_all_tracks example_env)) - Z.of_nat stored) ∧
    length (mood_rows db') = stored.
Proof.
  apply (run_after_create_database example_env "music_mood.db" "y"
           example_world 2 fresh_database);
    [reflexivity|reflexivity|lia|apply load_example_nonempty|by vm_compute].
Defined.

(** ** The table printer *)

Section Table.

Implicit Types (headers cells row : list string) (rows : list (list string))
  (widths ws : list nat).

Lemma string_length_app (s1 s2 : string) :
  String.length (s1 +:+ s2) = (String.length s1 + String.length s2)%nat.
Proof.
  induction s1 as [|c s1 IH]; [done|].
  rewrite app_cons. simpl. by rewrite IH.
Qed.

Lemma repeat_string_length (n : nat) (s : string) :
  String.length (repeat_string n s) = (n * String.length s)%nat.
Proof.
  induction n as [|n IH]; [done|].
  simpl. rewrite string_length_app, IH. lia.
Qed.

Lemma concat_length (sep : string) (l : list string) :
  String.length (String.concat sep l)
  = (sum_list (String.length <$> l) + String.length sep * (length l - 1))%nat.
Proof.
  induction l as [|x l IH]; [simpl; lia|].
  destruct l as [|y l]; [simpl; lia|].
  change (String.concat sep (x :: y :: l))
    with (x +:+ sep +:+ String.concat sep (y :: l)).
  rewrite !string_length_app, IH. simpl. lia.
Qed.

Lemma format_cell_length (s : string) (w : nat) :
  (String.length s ≤ w)%nat → String.length (format_cell s w) = (w + 2)%nat.
Proof.
  intros H. unfold format_cell, ljust.
  rewrite !string_length_app, repeat_string_length. simpl. lia.
Qed.

Lemma zip_format_cell_lengths cells ws :
  Forall2 (λ s w, (String.length s ≤ w)%nat) cells ws →
  String.length <$> zip_with format_cell cells ws = (λ w, w + 2)%nat <$> ws.
Proof.
  induction 1 as [|s w cells ws Hs _ IH]; [done|].
  change (zip_with format_cell (s :: cells) (w :: ws))
    with (format_cell s w :: zip_with format_cell cells ws).
  rewrite !fmap_cons, IH. by rewrite format_cell_length.
Qed.

Lemma row_line_length cells ws :
  Forall2 (λ s w, (String.length s ≤ w)%nat) cells ws →
  String.length (row_line cells ws) = line_width ws.
Proof.
  intros H. unfold row_line, line_width.
  rewrite !string_length_app, concat_length, zip_format_cell_lengths by done.
  rewrite length_zip_with, (Forall2_length _ _ _ H). simpl. lia.
Qed.

Lemma separator_line_length ws :
  String.length (separator_line ws) = line_width ws.
Proof.
  unfold separator_line, line_width.
  assert (String.length <$> ((λ w, repeat_string (w + 2) "-") <$> ws)
          = (λ w, w + 2)%nat <$> ws) as E.
  { rewrite <-list_fmap_compose. apply list_fmap_ext.
    intros i w _. simpl. rewrite repeat_string_length. simpl. lia. }
  rewrite !string_length_app, concat_length, length_fmap, E. simpl. lia.
Qed.

(** *** The widths *)

Lemma widen_from_Some (i : nat) row ws ws' :
  widen_from i row ws = Some ws' →
  length ws' = length ws ∧
  Forall2 le ws ws' ∧
  (∀ j cell, row !! j = Some cell →
     ∃ w, ws' !! (i + j)%nat = Some w ∧ (String.length cell ≤ w)%nat) ∧
  (row ≠ [] → (i + length row ≤ length ws)%nat).
Proof.
  revert i ws. induction row as [|cell rest IH]; intros i ws H; simpl in H.
  { injection H as <-. split; [done|]. split; [by apply Forall2_same_length_lookup_2;
      [|intros ??? H1 H2; rewrite H1 in H2; injection H2 as <-]|].
    split; [by intros j c ?|done]. }
  destruct (ws !! i) as [w|] eqn:Ew; [|done].
  apply IH in H as (Hlen & Hle & Hcells & Hbound).
  rewrite length_insert in Hlen.
  assert (i < length ws)%nat as Hi by (by eapply lookup_lt_Some).
  assert (Forall2 le ws (<[i:=Nat.max w (String.length cell)]> ws)) as Hstep.
  { apply Forall2_same_length_lookup_2; [by rewrite length_insert|].
    intros k x y Hx Hy. rewrite list_lookup_insert in Hy.
    destruct (decide _) as [[<- _]|_].
    - injection Hy as <-. rewrite Ew in Hx. injection Hx as <-. lia.
    - rewrite Hx in Hy. injection Hy as <-. lia. }
  split; [done|]. split.
  { apply Forall2_same_length_lookup_2; [lia|].
    intros k x z Hx Hz.
    destruct (Forall2_lookup_l _ _ _ _ _ Hstep Hx) as (y & Hy & Hxy).
    destruct (Forall2_lookup_l _ _ _ _ _ Hle Hy) as (z' & Hz' & Hyz).
    rewrite Hz in Hz'. injection Hz' as <-. lia. }
  split.
  - intros [|j] c Hc; simpl in Hc.
    + injection Hc as <-. rewrite Nat.add_0_r.
      assert (<[i:=Nat.max w (String.length cell)]> ws !! i
              = Some (Nat.max w (String.length cell))) as Hi'
        by (by apply list_lookup_insert_eq).
      destruct (Forall2_lookup_l _ _ _ _ _ Hle Hi') as (z & Hz & Hwz).
      exists z. split; [done|lia].
    + destruct (Hcells j c Hc) as (z & Hz & Hcz).
      exists z. split; [|done]. by replace (i + S j)%nat with (S i + j)%nat by lia.
  - intros _. destruct rest as [|c' rest']; [simpl; lia|].
    specialize (Hbound ltac:(done)). rewrite length_insert in Hbound.
    simpl in *. lia.
Qed.

Lemma widen_from_is_Some (i : nat) row ws :
  (i + length row ≤ length ws)%nat → is_Some (widen_from i row ws).
Proof.
  revert i ws. induction row as [|cell rest IH]; intros i ws H; simpl; [done|].
  simpl in H. destruct (lookup_lt_is_Some_2 ws i) as [w ->]; [lia|].
  apply IH. rewrite length_insert. lia.
Qed.

Lemma widen_from_None row ws :
  widen_from 0 row ws = None ↔ (length ws < length row)%nat.
Proof.
  split.
  - intros H. destruct (decide (length row ≤ length ws)%nat) as [Hle|]; [|lia].
    destruct (widen_from_is_Some 0 row ws Hle) as [ws' E]. congruence.
  - intros Hlt. destruct (widen_from 0 row ws) as [ws'|] eqn:E; [|done].
    apply widen_from_Some in E as (_ & _ & _ & Hb).
    assert (row ≠ []) as Hne by (intros ->; simpl in Hlt; lia).
    specialize (Hb Hne). lia.
Qed.

Lemma widths_fold_None (shown : list (list string)) :
  foldl (λ acc row, acc ≫= widen_from 0 row) None shown = None.
Proof. by induction shown. Qed.

Lemma widths_fold_Some (shown : list (list string)) ws0 ws :
  foldl (λ acc row, acc ≫= widen_from 0 row) (Some ws0) shown = Some ws →
  length ws = length ws0 ∧
  Forall2 le ws0 ws ∧
  Forall (λ row, (length row ≤ length ws0)%nat ∧
                 ∀ j cell, row !! j = Some cell →
                   ∃ w, ws !! j = Some w ∧ (String.length cell ≤ w)%nat) shown.
Proof.
  revert ws0. induction shown as [|row shown IH]; intros ws0 H; simpl in H.
  { injection H as <-. split; [done|]. split; [|constructor].
    apply Forall2_same_length_lookup_2; [done|].
    intros ??? H1 H2. rewrite H1 in H2. by injection H2 as <-. }
  destruct (widen_from 0 row ws0) as [ws1|] eqn:E;
    [|by rewrite widths_fold_None in H].
  simpl in H. apply IH in H as (Hlen & Hle & Hall).
  apply widen_from_Some in E as (Hlen1 & Hle1 & Hcells & Hb).
  assert (Forall2 le ws0 ws) as Hle0.
  { apply Forall2_same_length_lookup_2; [lia|].
    intros k x z Hx Hz.
    destruct (Forall2_lookup_l _ _ _ _ _ Hle1 Hx) as (y & Hy & Hxy).
    destruct (Forall2_lookup_l _ _ _ _ _ Hle Hy) as (z' & Hz' & Hyz).
    rewrite Hz in Hz'. injection Hz' as <-. lia. }
  split; [lia|]. split; [done|]. constructor.
  - split.
    + destruct row as [|c r]; [simpl; lia|]. specialize (Hb ltac:(done)). lia.
    + intros j cell Hc. destruct (Hcells j cell Hc) as (y & Hy & Hcy).
      destruct (Forall2_lookup_l _ _ _ _ _ Hle Hy) as (z & Hz & Hyz).
      exists z. split; [done|lia].
  - eapply Forall_impl; [exact Hall|]. intros r [H1 H2]. split; [lia|done].
Qed.

Lemma widths_fold_fails (shown : list (list string)) ws0 :
  foldl (λ acc row, acc ≫= widen_from 0 row) (Some ws0) shown = None ↔
  ∃ row, row ∈ shown ∧ (length ws0 < length row)%nat.
Proof.
  revert ws0. induction shown as [|row shown IH]; intros ws0; simpl.
  { split; [done|]. by intros (r & ?%elem_of_nil & _). }
  destruct (widen_from 0 row ws0) as [ws1|] eqn:E; simpl.
  - apply widen_from_Some in E as (Hlen1 & _ & _ & Hb).
    rewrite IH, Hlen1. split.
    + intros (r & Hr & Hlt). exists r. split; [by right|done].
    + intros (r & [Er|Hr]%elem_of_cons & Hlt); [|by exists r].
      subst r. destruct row as [|c row']; [simpl in Hlt; lia|].
      specialize (Hb ltac:(done)). lia.
  - rewrite widths_fold_None. split; [|done]. intros _.
    exists row. split; [by left|]. by apply widen_from_None.
Qed.

(** X23. When the table printer is given rows that all have as many
    cells as there are headers, it raises nothing and every line of the
    table has the same length: the two frame lines, the header, the rule
    under it and one line per displayed row. *)
Theorem table_lines_aligned headers rows (max_rows : option Z) :
  Forall (λ row, length row = length headers) (display_rows rows max_rows) →
  ∃ lines widths,
    table_lines headers rows max_rows = Some lines ∧
    length lines = (4 + length (display_rows rows max_rows))%nat ∧
    Forall (λ line, String.length line = line_width widths) lines ∧
    (rows ≠ [] →
     format_table headers rows max_rows
     = Some (String.concat nl lines +:+ hidden_rows_note rows max_rows)).
Proof.
  intros Hrect. unfold format_table, table_lines, column_widths.
  set (shown := display_rows rows max_rows) in *.
  destruct (foldl _ (Some (String.length <$> headers)) shown) as [ws|] eqn:E.
  2:{ apply widths_fold_fails in E as (r & Hr & Hlt).
      rewrite Forall_forall in Hrect. rewrite length_fmap, (Hrect r Hr) in Hlt. lia. }
  pose proof E as E'.
  apply widths_fold_Some in E' as (Hlen & Hle & Hall).
  rewrite length_fmap in Hlen.
  exists ([separator_line ws; row_line headers ws; separator_line ws]
          ++ ((λ row, row_line row ws) <$> shown) ++ [separator_line ws]), ws.
  split; [done|]. split.
  { rewrite !length_app, length_fmap. simpl. lia. }
  split; [|by destruct rows].
  assert (String.length (row_line headers ws) = line_width ws) as Hh.
  { apply row_line_length. apply Forall2_same_length_lookup_2; [lia|].
    intros i h w Hh Hw.
    assert ((String.length <$> headers) !! i = Some (String.length h)) as Hi
      by (by rewrite list_lookup_fmap, Hh).
    destruct (Forall2_lookup_l _ _ _ _ _ Hle Hi) as (w' & Hw' & Hhw).
    rewrite Hw in Hw'. by injection Hw' as <-. }
  repeat (apply Forall_cons; split; [by rewrite ?separator_line_length|]).
  apply Forall_app. split; [|by repeat constructor; rewrite separator_line_length].
  apply Forall_fmap, Forall_forall. intros row Hrow. simpl.
  apply row_line_length.
  rewrite Forall_forall in Hrect, Hall.
  destruct (Hall row Hrow) as [_ Hcells].
  apply Forall2_same_length_lookup_2; [rewrite (Hrect row Hrow); lia|].
  intros i c w Hc Hw. destruct (Hcells i c Hc) as (w' & Hw' & Hcw).
  rewrite Hw in Hw'. by injection Hw' as <-.
Qed.

(** X24. The table printer fails, with the [IndexError] of line 17,
    exactly when the rows are not empty and one of the displayed rows has
    more cells than there are headers; rows with fewer cells are
    accepted. *)
Theorem format_table_fails_on_long_row headers rows (max_rows : option Z) :
  format_table headers rows max_rows = None ↔
  rows ≠ [] ∧
  ∃ row, row ∈ display_rows rows max_rows ∧ (length headers < length row)%nat.
Proof.
  unfold format_table, table_lines, column_widths.
  destruct rows as [|r0 rows']; [split; [done|by intros [? _]]|].
  set (rows := r0 :: rows') in *.
  rewrite <-(length_fmap String.length headers), <-widths_fold_fails.
  destruct (foldl _ _ _); simpl; split; try done; by intros [_ ?].
Qed.

Lemma table_lines_aligned_witness :
  Forall (λ row, length row = length ["id"; "name"])
         (display_rows example_table_rows (Some 2)) ∧
  ∃ lines widths,
    table_lines ["id"; "name"] example_table_rows (Some 2) = Some lines ∧
    length lines = (4 + length (display_rows example_table_rows (Some 2%Z)))%nat ∧
    Forall (λ line, String.length line = line_width widths) lines ∧
    (example_table_rows ≠ [] →
     format_table ["id"; "name"] example_table_rows (Some 2)
     = Some (String.concat nl lines
             +:+ hidden_rows_note example_table_rows (Some 2))).
Proof.
  assert (Forall (λ row, length row = length ["id"; "name"])
                 (display_rows example_table_rows (Some 2))) as H
    by (vm_compute; repeat constructor).
  split; [exact H|].
  exact (table_lines_aligned ["id"; "name"] example_table_rows (Some 2) H).
Defined.

Lemma format_table_fails_on_long_row_witness :
  format_table ["id"] example_table_rows None = None.
Proof.
  apply (format_table_fails_on_long_row ["id"] example_table_rows None).
  split; [discriminate|].
  exists ["1"; "a"]. split; [by left|simpl; lia].
Defined.

(** X25. With a positive row limit the table printer shows the first
    [max_rows] rows.  A limit that is not below the number of rows gives
    the same text as no limit; a smaller one adds the note, whose number
    is exactly the number of rows left out. *)
Theorem positive_max_rows_shows_prefix headers rows (k : Z) :
  0 < k →
  display_rows rows (Some k) = take (Z.to_nat k) rows ∧
  (Z.of_nat (length rows) ≤ k →
   format_table headers rows (Some k) = format_table headers rows None) ∧
  (k < Z.of_nat (length rows) →
   hidden_rows_note rows (Some k)
   = nl +:+ "... "
        +:+ pretty (Z.of_nat (length rows - length (display_rows rows (Some k))))
        +:+ " more rows not shown ...").
Proof.
  intros Hk.
  assert (display_rows rows (Some k) = take (Z.to_nat k) rows) as Hshown.
  { unfold display_rows. destruct (k =? 0) eqn:E; [lia|].
    change k with (0 + k) at 1. rewrite py_slice_from by lia. done. }
  split; [done|]. split.
  - intros Hle. unfold format_table, table_lines. rewrite Hshown.
    rewrite take_ge by lia. unfold hidden_rows_note, display_rows.
    destruct (k =? 0) eqn:E; [lia|]. destruct (k <? _) eqn:E'; [lia|]. done.
  - intros Hlt. rewrite Hshown, length_take. unfold hidden_rows_note.
    destruct (k =? 0) eqn:E; [lia|]. destruct (k <? _) eqn:E'; [|lia]. simpl.
    replace (Z.of_nat (length rows - Z.to_nat k `min` length rows))
      with (Z.of_nat (length rows) - k) by lia.
    done.
Qed.

Lemma positive_max_rows_shows_prefix_witness :
  0 < 2 ∧
  display_rows example_table_rows (Some 2) = take (Z.to_nat 2) example_table_rows ∧
  (Z.of_nat (length example_table_rows) ≤ 2 →
   format_table ["id"; "name"] example_table_rows (Some 2)
   = format_table ["id"; "name"] example_table_rows None) ∧
  (2 < Z.of_nat (length example_table_rows) →
   hidden_rows_note example_table_rows (Some 2)
   = nl +:+ "... "
        +:+ pretty (Z.of_nat (length example_table_rows
                              - length (display_rows example_table_rows (Some 2))))
        +:+ " more rows not shown ...").
Proof.
  split; [lia|].
  apply (positive_max_rows_shows_prefix ["id"; "name"] example_table_rows 2). lia.
Defined.

(** X26. A negative row limit is not rejected: the slice of line 10
    drops the last [-max_rows] rows, and the note of line 44, added to the
    table, announces [len(rows) - max_rows] hidden rows, which is more
    rows than the table has. *)
Theorem negative_max_rows_overstates_hidden headers rows (k : Z) (lines : list string) :
  k < 0 →
  rows ≠ [] →
  table_lines headers rows (Some k) = Some lines →
  display_rows rows (Some k) = take (length rows - Z.to_nat (- k)) rows ∧
  ∃ n, format_table headers rows (Some k)
       = Some (String.concat nl lines
               +:+ nl +:+ "... " +:+ pretty n +:+ " more rows not shown ...") ∧
       n = Z.of_nat (length rows) - k ∧
       Z.of_nat (length rows) < n.
Proof.
  intros Hk Hne Hlines. split.
  - unfold display_rows, py_slice. destruct (k =? 0) eqn:E; [lia|].
    destruct (k <? 0) eqn:E'; [|lia]. simpl.
    rewrite (Z.min_l 0) by lia. simpl. f_equal. lia.
  - exists (Z.of_nat (length rows) - k). split; [|lia].
    unfold format_table. destruct rows as [|r0 rows']; [done|].
    rewrite Hlines. simpl. unfold hidden_rows_note.
    destruct (k =? 0) eqn:E; [lia|].
    destruct (k <? _) eqn:E'; [done|]. apply Z.ltb_ge in E'. exfalso. lia.
Qed.

Lemma negative_max_rows_overstates_hidden_witness :
  ∃ lines,
    -1 < 0 ∧ example_table_rows ≠ [] ∧
    table_lines ["id"; "name"] example_table_rows (Some (-1)) = Some lines ∧
    display_rows example_table_rows (Some (-1))
    = take (length example_table_rows - Z.to_nat (- -1)) example_table_rows ∧
    ∃ n, format_table ["id"; "name"] example_table_rows (Some (-1))
         = Some (String.concat nl lines
                 +:+ nl +:+ "... " +:+ pretty n +:+ " more rows not shown ...") ∧
         n = Z.of_nat (length example_table_rows) - -1 ∧
         Z.of_nat (length example_table_rows) < n.
Proof.
  assert (∃ lines, table_lines ["id"; "name"] example_table_rows (Some (-1))
                   = Some lines) as [lines Hl]
    by (eexists; vm_compute; reflexivity).
  assert (example_table_rows ≠ []) as Hne by discriminate.
  assert (-1 < 0) as Hk by lia.
  exists lines. split; [exact Hk|]. split; [exact Hne|]. split; [exact Hl|].
  exact (negative_max_rows_overstates_hidden
           ["id"; "name"] example_table_rows (-1) lines Hk Hne Hl).
Defined.

End Table.

